(** * QMC5883LCompass: calibration, smoothing and heading pipeline

    A shallow embedding of [src/QMC5883LCompass.cpp] and
    [src/QMC5883LCompass.h].  The driver object becomes a record, each
    member function a function on that record, and the two-wire bus and the
    millisecond clock become explicit inputs.

    Numeric conventions.
    - [int] and [long] values are mathematical integers ([Z]).  Signed
      overflow has no defined result in C++, and the samples are 16-bit, so
      no wrap-around is written for them.
    - Unsigned arithmetic wraps, and the wrap is written out with [mod]
      ([unsigned int], [unsigned long], [byte]).
    - In the driver object, [float] values are rationals extended with one
      non-finite value standing for the infinities and NaN ([cfloat]); a
      division by zero gives the non-finite value, and converting it to an
      integer is undefined.  Binary rounding is left out there: the
      properties proved on the object are about which fields change, which
      calls return and what integer samples flow through.
    - Where a property is about the float values themselves (the derived
      calibration, the declination, the heading), the computation is
      modelled bit for bit in module [Binary32], with the IEEE 754
      operations of [SpecFloat] at precision 24 ([float]) and at the
      precision of the board's [double]. *)

From Stdlib Require Import ZArith QArith Qround List Bool String Lia SpecFloat.
Import ListNotations.

Open Scope Z_scope.

(** ** Outcomes of a call *)

Inductive result (A : Type) : Type :=
| Ok (a : A)     (* the call returns *)
| Undef          (* the language leaves the behaviour undefined *)
| Blocked.       (* the call is still looping when the supplied clock ticks end *)

Arguments Ok {A} a.
Arguments Undef {A}.
Arguments Blocked {A}.

Definition bind {A B : Type} (r : result A) (k : A -> result B) : result B :=
  match r with
  | Ok a => k a
  | Undef => Undef
  | Blocked => Blocked
  end.

Notation "x <- c ;; k" := (bind c (fun x => k))
  (at level 61, c at next level, right associativity).
Notation "' p <- c ;; k" := (bind c (fun x => let 'p := x in k))
  (at level 61, p pattern, c at next level, right associativity).

(** ** Floating-point values *)

Inductive cfloat : Type :=
| Fin (q : Q)
| NonFin.

Definition of_int (z : Z) : cfloat := Fin (inject_Z z).

Definition fadd (a b : cfloat) : cfloat :=
  match a, b with
  | Fin x, Fin y => Fin (x + y)
  | _, _ => NonFin
  end.

Definition fsub (a b : cfloat) : cfloat :=
  match a, b with
  | Fin x, Fin y => Fin (x - y)
  | _, _ => NonFin
  end.

Definition fmul (a b : cfloat) : cfloat :=
  match a, b with
  | Fin x, Fin y => Fin (x * y)
  | _, _ => NonFin
  end.

(** Every divisor in the source is computed from integers in the same
    function, so it is finite; a zero divisor gives an infinity or NaN. *)
Definition fdiv (a b : cfloat) : cfloat :=
  match a, b with
  | Fin x, Fin y => if Qeq_bool y 0 then NonFin else Fin (x / y)
  | _, _ => NonFin
  end.

(** Comparisons with NaN are false. *)
Definition flt (a b : cfloat) : bool :=
  match a, b with
  | Fin x, Fin y => negb (Qle_bool y x)
  | _, _ => false
  end.

Definition fgt (a b : cfloat) : bool := flt b a.

(** Truncation toward zero: the value of a cast to an integer type. *)
Definition Qtrunc (q : Q) : Z :=
  if Qle_bool 0 q then Qfloor q else Qceiling q.

(** [round(x)]: nearest integer, halves away from zero.  The Arduino macro
    [((x)>=0?(long)((x)+0.5):(long)((x)-0.5))] and the C library function
    agree on this value. *)
Definition Qround_away (q : Q) : Z :=
  if Qle_bool 0 q then Qtrunc (q + (1 # 2)) else Qtrunc (q - (1 # 2)).

(** [(int)round(x)] *)
Definition round_to_int (x : cfloat) : result Z :=
  match x with
  | Fin q => Ok (Qround_away q)
  | NonFin => Undef
  end.

(** Conversion of a floating value to an unsigned type of [w] bits: the
    fraction is dropped, and the conversion is undefined when the integral
    part does not fit. *)
Definition to_unsigned (w : Z) (x : cfloat) : result Z :=
  match x with
  | Fin q =>
      let t := Qtrunc q in
      if (0 <=? t) && (t <? 2 ^ w) then Ok t else Undef
  | NonFin => Undef
  end.

(** Widths of [unsigned long] (32 bits on the AVR, ARM and ESP boards) and
    of [byte]. *)
Definition ulong_bits : Z := 32.
Definition byte_bits : Z := 8.

(** [(int16_t)v]: the low 16 bits read as a two's complement number. *)
Definition int16 (v : Z) : Z := (v + 32768) mod 65536 - 32768.

(** ** Arrays of three axes *)

Record vec3 (A : Type) : Type := V3 { v0 : A; v1 : A; v2 : A }.

Arguments V3 {A} v0 v1 v2.
Arguments v0 {A} v.
Arguments v1 {A} v.
Arguments v2 {A} v.

(** The indices 0, 1 and 2 of the per-axis arrays. *)
Inductive axis : Type := Ax0 | Ax1 | Ax2.

Definition vget {A : Type} (i : axis) (v : vec3 A) : A :=
  match i with
  | Ax0 => v0 v
  | Ax1 => v1 v
  | Ax2 => v2 v
  end.

Definition vset {A : Type} (i : axis) (a : A) (v : vec3 A) : vec3 A :=
  match i with
  | Ax0 => V3 a (v1 v) (v2 v)
  | Ax1 => V3 (v0 v) a (v2 v)
  | Ax2 => V3 (v0 v) (v1 v) a
  end.

(** ** The history buffer [int _vHistory[10][3]] *)

Definition zero3 : vec3 Z := V3 0 0 0.

Definition cell (h : list (vec3 Z)) (j : Z) (i : axis) : Z :=
  vget i (nth (Z.to_nat j) h zero3).

Fixpoint set_row (h : list (vec3 Z)) (n : nat) (f : vec3 Z -> vec3 Z)
  : list (vec3 Z) :=
  match h, n with
  | [], _ => []
  | r :: t, O => f r :: t
  | r :: t, S m => r :: set_row t m f
  end.

Definition set_cell (h : list (vec3 Z)) (j : Z) (i : axis) (v : Z)
  : list (vec3 Z) :=
  set_row h (Z.to_nat j) (vset i v).

(** ** The driver object *)

Record compass : Type := Compass {
  _autoCalibrate : bool;
  _magneticDeclinationDegrees : cfloat;
  _smoothUse : bool;
  _smoothSteps : Z;
  _smoothAdvanced : bool;
  _ADDR : Z;
  _vRaw : vec3 Z;
  _vHistory : list (vec3 Z);
  _vScan : Z;
  _vTotals : vec3 Z;
  _vSmooth : vec3 Z;
  _offset : vec3 cfloat;
  _scale : vec3 cfloat;
  _vCalibrated : vec3 Z;
  minX : Z;
  minY : Z;
  minZ : Z;
  maxX : Z;
  maxY : Z;
  maxZ : Z
}.

(** Field initialisers of the header.  [_vHistory] and [_vCalibrated] have
    none; a driver object with static storage starts them at zero. *)
Definition QMC5883LCompass : compass :=
  {| _autoCalibrate := false;
     _magneticDeclinationDegrees := of_int 0;
     _smoothUse := false;
     _smoothSteps := 5;
     _smoothAdvanced := false;
     _ADDR := 13;
     _vRaw := zero3;
     _vHistory := repeat zero3 10;
     _vScan := 0;
     _vTotals := zero3;
     _vSmooth := zero3;
     _offset := V3 (of_int 0) (of_int 0) (of_int 0);
     _scale := V3 (of_int 1) (of_int 1) (of_int 1);
     _vCalibrated := zero3;
     minX := 65000;
     minY := 65000;
     minZ := 65000;
     maxX := -65000;
     maxY := -65000;
     maxZ := -65000 |}.

(** Assignments to one field. *)

Definition set_autoCalibrate (v : bool) (c : compass) : compass :=
  let 'Compass _ md su ss sa ad raw hi sc to sm off scl cal nx ny nz mx my mz := c in
  Compass v md su ss sa ad raw hi sc to sm off scl cal nx ny nz mx my mz.

Definition set_magneticDeclinationDegrees (v : cfloat) (c : compass) : compass :=
  let 'Compass ac _ su ss sa ad raw hi sc to sm off scl cal nx ny nz mx my mz := c in
  Compass ac v su ss sa ad raw hi sc to sm off scl cal nx ny nz mx my mz.

Definition set_smoothUse (v : bool) (c : compass) : compass :=
  let 'Compass ac md _ ss sa ad raw hi sc to sm off scl cal nx ny nz mx my mz := c in
  Compass ac md v ss sa ad raw hi sc to sm off scl cal nx ny nz mx my mz.

Definition set_smoothSteps (v : Z) (c : compass) : compass :=
  let 'Compass ac md su _ sa ad raw hi sc to sm off scl cal nx ny nz mx my mz := c in
  Compass ac md su v sa ad raw hi sc to sm off scl cal nx ny nz mx my mz.

Definition set_smoothAdvanced (v : bool) (c : compass) : compass :=
  let 'Compass ac md su ss _ ad raw hi sc to sm off scl cal nx ny nz mx my mz := c in
  Compass ac md su ss v ad raw hi sc to sm off scl cal nx ny nz mx my mz.

Definition set_ADDR (v : Z) (c : compass) : compass :=
  let 'Compass ac md su ss sa _ raw hi sc to sm off scl cal nx ny nz mx my mz := c in
  Compass ac md su ss sa v raw hi sc to sm off scl cal nx ny nz mx my mz.

Definition set_vRaw (v : vec3 Z) (c : compass) : compass :=
  let 'Compass ac md su ss sa ad _ hi sc to sm off scl cal nx ny nz mx my mz := c in
  Compass ac md su ss sa ad v hi sc to sm off scl cal nx ny nz mx my mz.

Definition set_vHistory (v : list (vec3 Z)) (c : compass) : compass :=
  let 'Compass ac md su ss sa ad raw _ sc to sm off scl cal nx ny nz mx my mz := c in
  Compass ac md su ss sa ad raw v sc to sm off scl cal nx ny nz mx my mz.

Definition set_vScan (v : Z) (c : compass) : compass :=
  let 'Compass ac md su ss sa ad raw hi _ to sm off scl cal nx ny nz mx my mz := c in
  Compass ac md su ss sa ad raw hi v to sm off scl cal nx ny nz mx my mz.

Definition set_vTotals (v : vec3 Z) (c : compass) : compass :=
  let 'Compass ac md su ss sa ad raw hi sc _ sm off scl cal nx ny nz mx my mz := c in
  Compass ac md su ss sa ad raw hi sc v sm off scl cal nx ny nz mx my mz.

Definition set_vSmooth (v : vec3 Z) (c : compass) : compass :=
  let 'Compass ac md su ss sa ad raw hi sc to _ off scl cal nx ny nz mx my mz := c in
  Compass ac md su ss sa ad raw hi sc to v off scl cal nx ny nz mx my mz.

Definition set_offset (v : vec3 cfloat) (c : compass) : compass :=
  let 'Compass ac md su ss sa ad raw hi sc to sm _ scl cal nx ny nz mx my mz := c in
  Compass ac md su ss sa ad raw hi sc to sm v scl cal nx ny nz mx my mz.

Definition set_scale (v : vec3 cfloat) (c : compass) : compass :=
  let 'Compass ac md su ss sa ad raw hi sc to sm off _ cal nx ny nz mx my mz := c in
  Compass ac md su ss sa ad raw hi sc to sm off v cal nx ny nz mx my mz.

Definition set_vCalibrated (v : vec3 Z) (c : compass) : compass :=
  let 'Compass ac md su ss sa ad raw hi sc to sm off scl _ nx ny nz mx my mz := c in
  Compass ac md su ss sa ad raw hi sc to sm off scl v nx ny nz mx my mz.

Definition set_minX (v : Z) (c : compass) : compass :=
  let 'Compass ac md su ss sa ad raw hi sc to sm off scl cal _ ny nz mx my mz := c in
  Compass ac md su ss sa ad raw hi sc to sm off scl cal v ny nz mx my mz.

Definition set_minY (v : Z) (c : compass) : compass :=
  let 'Compass ac md su ss sa ad raw hi sc to sm off scl cal nx _ nz mx my mz := c in
  Compass ac md su ss sa ad raw hi sc to sm off scl cal nx v nz mx my mz.

Definition set_minZ (v : Z) (c : compass) : compass :=
  let 'Compass ac md su ss sa ad raw hi sc to sm off scl cal nx ny _ mx my mz := c in
  Compass ac md su ss sa ad raw hi sc to sm off scl cal nx ny v mx my mz.

Definition set_maxX (v : Z) (c : compass) : compass :=
  let 'Compass ac md su ss sa ad raw hi sc to sm off scl cal nx ny nz _ my mz := c in
  Compass ac md su ss sa ad raw hi sc to sm off scl cal nx ny nz v my mz.

Definition set_maxY (v : Z) (c : compass) : compass :=
  let 'Compass ac md su ss sa ad raw hi sc to sm off scl cal nx ny nz mx _ mz := c in
  Compass ac md su ss sa ad raw hi sc to sm off scl cal nx ny nz mx v mz.

Definition set_maxZ (v : Z) (c : compass) : compass :=
  let 'Compass ac md su ss sa ad raw hi sc to sm off scl cal nx ny nz mx my _ := c in
  Compass ac md su ss sa ad raw hi sc to sm off scl cal nx ny nz mx my v.

(** ** Configuration *)

Definition setAutocalibrate (autoCalibrateEnabled : bool) (c : compass) : compass :=
  set_autoCalibrate autoCalibrateEnabled c.

(** A [byte] or [uint8_t] parameter receives its argument modulo 256. *)
Definition setADDR (b : Z) (c : compass) : compass :=
  set_ADDR (b mod 2 ^ byte_bits) c.

(** [init], [setMode] and [setReset] only write chip registers over the bus
    (and [init] picks the bus object); no field of the record changes. *)
Definition init (c : compass) : compass := c.
Definition setMode (mode odr rng osr : Z) (c : compass) : compass := c.
Definition setReset (c : compass) : compass := c.

Definition setMagneticDeclination (degrees minutes : Z) (c : compass) : compass :=
  let minutes := minutes mod 2 ^ byte_bits in
  set_magneticDeclinationDegrees
    (fadd (of_int degrees) (fdiv (of_int minutes) (of_int 60))) c.

Definition setSmoothing (steps : Z) (adv : bool) (c : compass) : compass :=
  let steps := steps mod 2 ^ byte_bits in
  let c := set_smoothUse true c in
  let c := set_smoothSteps (if steps >? 10 then 10 else steps) c in
  set_smoothAdvanced (if Bool.eqb adv true then true else false) c.

(** ** Calibration model *)

Definition setCalibrationOffsets (x_offset y_offset z_offset : cfloat)
  (c : compass) : compass :=
  set_offset (V3 x_offset y_offset z_offset) c.

Definition setCalibrationScales (x_scale y_scale z_scale : cfloat)
  (c : compass) : compass :=
  set_scale (V3 x_scale y_scale z_scale) c.

Definition setCalibration (x_min x_max y_min y_max z_min z_max : Z)
  (c : compass) : compass :=
  let x_min_f := of_int x_min in
  let x_max_f := of_int x_max in
  let y_min_f := of_int y_min in
  let y_max_f := of_int y_max in
  let z_min_f := of_int z_min in
  let z_max_f := of_int z_max in
  let c :=
    setCalibrationOffsets
      (fdiv (fadd x_min_f x_max_f) (of_int 2))
      (fdiv (fadd y_min_f y_max_f) (of_int 2))
      (fdiv (fmul z_min_f z_max_f) (of_int 2)) c in
  let x_avg_delta := fdiv (fsub x_max_f x_min_f) (of_int 2) in
  let y_avg_delta := fdiv (fsub y_max_f y_min_f) (of_int 2) in
  let z_avg_delta := fdiv (fsub z_max_f z_min_f) (of_int 2) in
  let avg_delta :=
    fdiv (fadd (fadd x_avg_delta y_avg_delta) z_avg_delta) (of_int 3) in
  setCalibrationScales
    (fdiv avg_delta x_avg_delta)
    (fdiv avg_delta y_avg_delta)
    (fdiv avg_delta z_avg_delta) c.

(** The index is a [uint8_t]; outside 0..2 the array access is undefined. *)
Definition axis_of_index (index : Z) : result axis :=
  if index =? 0 then Ok Ax0
  else if index =? 1 then Ok Ax1
  else if index =? 2 then Ok Ax2
  else Undef.

Definition getCalibrationOffset (index : Z) (c : compass) : result cfloat :=
  i <- axis_of_index index ;; Ok (vget i (_offset c)).

Definition getCalibrationScale (index : Z) (c : compass) : result cfloat :=
  i <- axis_of_index index ;; Ok (vget i (_scale c)).

Definition clearCalibration (c : compass) : compass :=
  let c := setCalibrationOffsets (of_int 0) (of_int 0) (of_int 0) c in
  setCalibrationScales (of_int 1) (of_int 1) (of_int 1) c.

(** One [if (v < min) ...; if (v > max) ...] pair of the extrema update. *)
Definition track (v lo hi : Z) (found : bool) : Z * Z * bool :=
  let '(lo, found) := if v <? lo then (v, true) else (lo, found) in
  let '(hi, found) := if v >? hi then (v, true) else (hi, found) in
  (lo, hi, found).

Definition update_extrema (x y z : Z) (c : compass) : compass * bool :=
  let foundNewValue := false in
  let '(nx, mx, foundNewValue) := track x (minX c) (maxX c) foundNewValue in
  let '(ny, my, foundNewValue) := track y (minY c) (maxY c) foundNewValue in
  let '(nz, mz, foundNewValue) := track z (minZ c) (maxZ c) foundNewValue in
  let c := set_maxX mx (set_minX nx c) in
  let c := set_maxY my (set_minY ny c) in
  let c := set_maxZ mz (set_minZ nz c) in
  (c, foundNewValue).

Definition _applyCalibrationIfNecessary (x y z : Z) (c : compass)
  : compass * bool :=
  let '(c, foundNewValue) := update_extrema x y z c in
  let c :=
    if foundNewValue
    then setCalibration (minX c) (maxX c) (minY c) (maxY c) (minZ c) (maxZ c) c
    else c in
  (c, foundNewValue).

(** ** Calibration applier *)

Definition _applyCalibration (c : compass) : result compass :=
  let cal (i : axis) :=
    round_to_int
      (fmul (fsub (of_int (vget i (_vRaw c))) (vget i (_offset c)))
            (vget i (_scale c))) in
  c0 <- cal Ax0 ;;
  c1 <- cal Ax1 ;;
  c2 <- cal Ax2 ;;
  Ok (set_vCalibrated (V3 c0 c1 c2) c).

(** ** Smoothing engine *)

(** [for (int j = 0; j < n; j++) m = (H[j][i] > H[m][i]) ? j : m;] from [m = 0] *)
Definition scan_max (h : list (vec3 Z)) (i : axis) (n : Z) : Z :=
  fold_left (fun max j => if cell h j i >? cell h max i then j else max)
            (map Z.of_nat (seq 0 (Z.to_nat n))) 0.

Definition scan_min (h : list (vec3 Z)) (i : axis) (n : Z) : Z :=
  fold_left (fun min k => if cell h k i <? cell h min i then k else min)
            (map Z.of_nat (seq 0 (Z.to_nat n))) 0.

(** The body of the loop over the axes, for axis [i]. *)
Definition smooth_axis (i : axis) (c : compass) : result compass :=
  let tot := vget i (_vTotals c) in
  let tot :=
    if negb (tot =? 0) then tot - cell (_vHistory c) (_vScan c) i else tot in
  let h := set_cell (_vHistory c) (_vScan c) i (vget i (_vCalibrated c)) in
  let tot := tot + cell h (_vScan c) i in
  let c := set_vTotals (vset i tot (_vTotals c)) (set_vHistory h c) in
  if _smoothAdvanced c then
    let max := scan_max h i (_smoothSteps c - 1) in
    let min := scan_min h i (_smoothSteps c - 1) in
    s <- round_to_int
           (fdiv (fsub (of_int tot)
                       (fadd (of_int (cell h max i)) (of_int (cell h min i))))
                 (fsub (of_int (_smoothSteps c)) (of_int 2))) ;;
    Ok (set_vSmooth (vset i s (_vSmooth c)) c)
  else
    s <- round_to_int (fdiv (of_int tot) (of_int (_smoothSteps c))) ;;
    Ok (set_vSmooth (vset i s (_vSmooth c)) c).

Definition _smoothing (c : compass) : result compass :=
  let c := if _vScan c >? _smoothSteps c - 1 then set_vScan 0 c else c in
  c <- smooth_axis Ax0 c ;;
  c <- smooth_axis Ax1 c ;;
  c <- smooth_axis Ax2 c ;;
  Ok (set_vScan (_vScan c + 1) c).

(** ** Reading a sample *)

(** What the bus hands back for one read cycle: the code returned by
    [endTransmission], and the values the calls of [wire->read()] return,
    listed in the order the calls are written in the source: for each axis
    the call that is the left operand of [|], then the call that is shifted.
    The two calls of an axis are unsequenced, so this is the order of the
    bytes on the wire only in a build that evaluates the left operand
    first. *)
Record bus_reply : Type := BusReply { tx_err : Z; rx : list Z }.

(** [wire->read()]: the next value, or -1 when none is left. *)
Definition wire_read (buf : list Z) : Z * list Z :=
  match buf with
  | [] => (-1, [])
  | b :: rest => (b, rest)
  end.

Definition read_axis (buf : list Z) : Z * list Z :=
  let '(lo, buf) := wire_read buf in
  let '(hi, buf) := wire_read buf in
  (int16 (Z.lor lo (Z.shiftl hi 8)), buf).

Definition read (bus : bus_reply) (c : compass) : result (compass * bool) :=
  let foundNewValue := false in
  let err := tx_err bus in
  if err =? 0 then
    let '(x, buf) := read_axis (rx bus) in
    let '(y, buf) := read_axis buf in
    let '(z, buf) := read_axis buf in
    let '(c, foundNewValue) :=
      if _autoCalibrate c then _applyCalibrationIfNecessary x y z c
      else (c, foundNewValue) in
    let c := set_vRaw (V3 x y z) c in
    c <- _applyCalibration c ;;
    c <- (if _smoothUse c then _smoothing c else Ok c) ;;
    Ok (c, foundNewValue)
  else Ok (c, foundNewValue).

(** ** Axis accessors *)

Definition _get (i : axis) (c : compass) : Z :=
  if _smoothUse c then vget i (_vSmooth c) else vget i (_vCalibrated c).

Definition getX (c : compass) : Z := _get Ax0 c.
Definition getY (c : compass) : Z := _get Ax1 c.
Definition getZ (c : compass) : Z := _get Ax2 c.

(** ** Auto-calibration session *)

(** [if(seconds == 0) seconds = 10000; totalMillis = seconds * 1000;]
    The product is taken in [unsigned int], of [uint_bits] bits (16 on AVR
    boards, 32 on ARM and ESP boards), before it is widened. *)
Definition totalMillis_of (uint_bits seconds : Z) : Z :=
  let seconds := if seconds =? 0 then 10000 else seconds in
  (seconds * 1000) mod 2 ^ uint_bits.

(** A call of the progress callback: the fraction and the new-extremum flag. *)
Definition progress_event : Type := (cfloat * bool)%type.

(** The [do ... while] loop.  Each iteration consumes one tick: the value
    [millis()] returns and the bus reply to the [read()] of that iteration. *)
Fixpoint calibrate_loop (totalMillis startTime : Z)
  (ticks : list (Z * bus_reply)) (c : compass) (log : list progress_event)
  : result (compass * list progress_event) :=
  match ticks with
  | [] => Blocked
  | (currentTime, bus) :: ticks =>
      let elapsedMillis := (currentTime - startTime) mod 2 ^ ulong_bits in
      let elapsedMillis :=
        if elapsedMillis >? totalMillis then totalMillis else elapsedMillis in
      let progress := fdiv (of_int elapsedMillis) (of_int totalMillis) in
      let progress :=
        if flt progress (of_int 0) then of_int 0
        else if fgt progress (of_int 1) then of_int 1
        else progress in
      '(c, _) <- read bus c ;;
      let '(c, foundNewValue) := update_extrema (getX c) (getY c) (getZ c) c in
      let log := log ++ [(progress, foundNewValue)] in
      if elapsedMillis <? totalMillis
      then calibrate_loop totalMillis startTime ticks c log
      else Ok (c, log)
  end.

Definition calibrate (uint_bits seconds startTime : Z)
  (ticks : list (Z * bus_reply)) (c : compass)
  : result (compass * list progress_event) :=
  let c := clearCalibration c in
  let c := set_maxX (getX c) (set_minX (getX c) c) in
  let c := set_maxY (getY c) (set_minY (getY c) c) in
  let c := set_maxZ (getZ c) (set_minZ (getZ c) c) in
  let totalMillis := totalMillis_of uint_bits seconds in
  let log := [(of_int 0, true)] in
  '(c, log) <- calibrate_loop totalMillis startTime ticks c log ;;
  let c :=
    setCalibration (minX c) (maxX c) (minY c) (maxY c) (minZ c) (maxZ c) c in
  Ok (c, log ++ [(of_int 1, false)]).

(** ** Float values, bit for bit *)

Module Binary32.

(** The format of [float]. *)
Definition prec : Z := 24.
Definition emax : Z := 128.

(** [(float)z]: the nearest value, ties to even. *)
Definition of_int (z : Z) : spec_float := binary_normalize prec emax z 0 false.

Definition add (a b : spec_float) : spec_float := SFadd prec emax a b.
Definition sub (a b : spec_float) : spec_float := SFsub prec emax a b.
Definition mul (a b : spec_float) : spec_float := SFmul prec emax a b.
Definition div (a b : spec_float) : spec_float := SFdiv prec emax a b.

(** Conversion of a [double] to [float]. *)
Definition narrow (x : spec_float) : spec_float :=
  match x with
  | S754_finite s m e => binary_round prec emax s m e
  | _ => x
  end.

(** The integral part of a finite value, toward zero. *)
Definition trunc (x : spec_float) : option Z :=
  match x with
  | S754_zero _ => Some 0
  | S754_finite s m e =>
      let a := if 0 <=? e then Z.pos m * 2 ^ e else Z.pos m / 2 ^ (- e) in
      Some (if s then - a else a)
  | _ => None
  end.

(** [(int)x] for an [int] of [int_bits] bits: undefined for a NaN, an
    infinity, or an integral part that does not fit. *)
Definition to_int (int_bits : Z) (x : spec_float) : result Z :=
  match trunc x with
  | Some t =>
      if (- 2 ^ (int_bits - 1) <=? t) && (t <? 2 ^ (int_bits - 1))
      then Ok t else Undef
  | None => Undef
  end.

(** The offsets and the scales [setCalibration] stores. *)
Definition setCalibration (x_min x_max y_min y_max z_min z_max : Z)
  : vec3 spec_float * vec3 spec_float :=
  let x_min_f := of_int x_min in
  let x_max_f := of_int x_max in
  let y_min_f := of_int y_min in
  let y_max_f := of_int y_max in
  let z_min_f := of_int z_min in
  let z_max_f := of_int z_max in
  let offsets :=
    V3 (div (add x_min_f x_max_f) (of_int 2))
       (div (add y_min_f y_max_f) (of_int 2))
       (div (mul z_min_f z_max_f) (of_int 2)) in
  let x_avg_delta := div (sub x_max_f x_min_f) (of_int 2) in
  let y_avg_delta := div (sub y_max_f y_min_f) (of_int 2) in
  let z_avg_delta := div (sub z_max_f z_min_f) (of_int 2) in
  let avg_delta :=
    div (add (add x_avg_delta y_avg_delta) z_avg_delta) (of_int 3) in
  let scales :=
    V3 (div avg_delta x_avg_delta)
       (div avg_delta y_avg_delta)
       (div avg_delta z_avg_delta) in
  (offsets, scales).

(** The declination [setMagneticDeclination] stores. *)
Definition setMagneticDeclination (degrees minutes : Z) : spec_float :=
  let minutes := minutes mod 2 ^ byte_bits in
  add (of_int degrees) (div (of_int minutes) (of_int 60)).

Section Heading.

(** The width of [int] and the format of [double] on the board (16 bits and
    the format of [float] on AVR, 32 bits and binary64 on ARM and ESP);
    [atan2] of the C library on two integers, and the [PI] macro of
    [Arduino.h], neither of which is part of the sources. *)
Variable int_bits : Z.
Variable dprec demax : Z.
Variable atan2 : Z -> Z -> spec_float.
Variable PI : spec_float.

(** [float heading = atan2(y, x) * 180.0 / PI; heading += declination;] for
    the accessor values [x] and [y] and the stored declination. *)
Definition heading (x y : Z) (declination : spec_float) : spec_float :=
  let heading :=
    SFdiv dprec demax
      (SFmul dprec demax (atan2 y x) (binary_normalize dprec demax 180 0 false))
      PI in
  add (narrow heading) declination.

Definition getAzimuth (x y : Z) (declination : spec_float) : result Z :=
  h <- to_int int_bits (heading x y declination) ;;
  Ok (Z.rem h 360).

End Heading.

End Binary32.

(** The double nearest to pi and to -pi/4, as values of the [PI] macro and
    of [atan2] in the examples. *)
Definition pi_double : spec_float := S754_finite false 7074237752028440 (-51).
Definition minus_quarter_pi_double : spec_float :=
  S754_finite true 7074237752028440 (-53).

(** ** Bearing *)

(** [(int)a] for an [unsigned long] that fits: the value is kept. *)
Definition int_of_ulong (a : Z) : Z := a.

Definition fge (a b : cfloat) : bool :=
  match a, b with
  | Fin x, Fin y => Qle_bool y x
  | _, _ => false
  end.

Definition fceil (a : cfloat) : cfloat :=
  match a with
  | Fin x => of_int (Qceiling x)
  | NonFin => NonFin
  end.

Definition ffloor (a : cfloat) : cfloat :=
  match a with
  | Fin x => of_int (Qfloor x)
  | NonFin => NonFin
  end.

Definition getBearing (azimuth : Z) : result Z :=
  a <- to_unsigned ulong_bits
         (if fgt (of_int azimuth) (Fin (- (1 # 2)))
          then fdiv (of_int azimuth) (Fin (45 # 2))
          else fdiv (of_int (azimuth + 360)) (Fin (45 # 2))) ;;
  let r := (a - int_of_ulong a) mod 2 ^ ulong_bits in
  let sexdec := 0 in
  sexdec <- to_unsigned byte_bits
              (if fge (of_int r) (Fin (1 # 2))
               then fceil (of_int a) else ffloor (of_int a)) ;;
  Ok sexdec.

Definition _bearings : list string :=
  [ "  N"; "NNE"; " NE"; "ENE";
    "  E"; "ESE"; " SE"; "SSE";
    "  S"; "SSW"; " SW"; "WSW";
    "  W"; "WNW"; " NW"; "NNW" ]%string.

(** The three characters written to [myArray]; a sector outside the table
    reads past its end. *)
Definition getDirection (azimuth : Z) : result string :=
  d <- getBearing azimuth ;;
  match nth_error _bearings (Z.to_nat d) with
  | Some name => Ok name
  | None => Undef
  end.

(** ** Sequences of public calls *)

Inductive op : Type :=
| OpInit
| OpSetADDR (b : Z)
| OpSetAutocalibrate (autoCalibrateEnabled : bool)
| OpSetMode (mode odr rng osr : Z)
| OpSetMagneticDeclination (degrees minutes : Z)
| OpSetSmoothing (steps : Z) (adv : bool)
| OpCalibrate (seconds startTime : Z) (ticks : list (Z * bus_reply))
| OpSetCalibration (x_min x_max y_min y_max z_min z_max : Z)
| OpSetCalibrationOffsets (x_offset y_offset z_offset : cfloat)
| OpSetCalibrationScales (x_scale y_scale z_scale : cfloat)
| OpClearCalibration
| OpSetReset
| OpRead (bus : bus_reply).

Definition exec (uint_bits : Z) (o : op) (c : compass) : result compass :=
  match o with
  | OpInit => Ok (init c)
  | OpSetADDR b => Ok (setADDR b c)
  | OpSetAutocalibrate e => Ok (setAutocalibrate e c)
  | OpSetMode mode odr rng osr => Ok (setMode mode odr rng osr c)
  | OpSetMagneticDeclination d m => Ok (setMagneticDeclination d m c)
  | OpSetSmoothing steps adv => Ok (setSmoothing steps adv c)
  | OpCalibrate seconds startTime ticks =>
      '(c, _) <- calibrate uint_bits seconds startTime ticks c ;; Ok c
  | OpSetCalibration a b d e f g => Ok (setCalibration a b d e f g c)
  | OpSetCalibrationOffsets x y z => Ok (setCalibrationOffsets x y z c)
  | OpSetCalibrationScales x y z => Ok (setCalibrationScales x y z c)
  | OpClearCalibration => Ok (clearCalibration c)
  | OpSetReset => Ok (setReset c)
  | OpRead bus => '(c, _) <- read bus c ;; Ok c
  end.

Fixpoint run (uint_bits : Z) (ops : list op) (c : compass) : result compass :=
  match ops with
  | [] => Ok c
  | o :: ops => c <- exec uint_bits o c ;; run uint_bits ops c
  end.

(** ** Properties the specification states, in its own words *)

(** Round half up: the integer [n] with [n - 1/2 <= x < n + 1/2]. *)
Definition round_half_up (q : Q) : Z := Qfloor (q + (1 # 2)).

(** The sector of an azimuth as the specification describes it. *)
Definition spec_bearing (azimuth : Z) : Z :=
  if 0 <=? azimuth
  then round_half_up (inject_Z azimuth / (45 # 2))
  else round_half_up (inject_Z (azimuth + 360) / (45 # 2)).

(** The sum over axis [i] of the first [capacity] ring-buffer entries. *)
Definition ring_sum (capacity : Z) (i : axis) (h : list (vec3 Z)) : Z :=
  fold_right Z.add 0 (map (vget i) (firstn (Z.to_nat capacity) h)).

(** [totals] is the running sum of the entries held. *)
Definition totals_are_sums (c : compass) : Prop :=
  forall i : axis,
    vget i (_vTotals c) = ring_sum (_smoothSteps c) i (_vHistory c).

(** Feeding one calibrated sample to the smoothing engine. *)
Definition feed (sample : vec3 Z) (c : compass) : result compass :=
  _smoothing (set_vCalibrated sample c).

Fixpoint feed_all (samples : list (vec3 Z)) (c : compass) : result compass :=
  match samples with
  | [] => Ok c
  | s :: samples => c <- feed s c ;; feed_all samples c
  end.

(** The settings that [read], the smoothing engine and the calibration
    never assign are the same in both objects. *)
Definition keeps_settings (c c' : compass) : Prop :=
  _smoothUse c = _smoothUse c' /\
  _smoothSteps c = _smoothSteps c' /\
  _smoothAdvanced c = _smoothAdvanced c' /\
  _magneticDeclinationDegrees c = _magneticDeclinationDegrees c' /\
  _autoCalibrate c = _autoCalibrate c' /\
  _ADDR c = _ADDR c'.

(** A sample with the same value on the three axes. *)
Definition same3 (n : Z) : vec3 Z := V3 n n n.

(** A bus reply carrying the six bytes of a sample, no transmission error. *)
Definition reply_ok (b0 b1 b2 b3 b4 b5 : Z) : bus_reply :=
  BusReply 0 [b0; b1; b2; b3; b4; b5].

(** ** Bus traffic *)

(** What the driver sends to the two-wire bus. *)
Inductive bus_event : Type :=
| WireBegin
| BeginTransmission (address : Z)
| WireWrite (b : Z)
| EndTransmission
| RequestFrom (address quantity : Z).

(** Conversion of an [int] to [byte]. *)
Definition to_byte (v : Z) : Z := v mod 2 ^ byte_bits.

Definition _writeReg (r v : Z) (c : compass) : list bus_event :=
  [BeginTransmission (_ADDR c); WireWrite r; WireWrite v; EndTransmission].

(** The bus side of [setMode], [setReset], [init] and [read]. *)
Definition setMode_bus (mode odr rng osr : Z) (c : compass) : list bus_event :=
  _writeReg 9 (to_byte (Z.lor (Z.lor (Z.lor mode odr) rng) osr)) c.

Definition setReset_bus (c : compass) : list bus_event := _writeReg 10 128 c.

Definition init_bus (c : compass) : list bus_event :=
  WireBegin :: _writeReg 11 1 c ++ setMode_bus 1 12 16 0 c.

Definition read_bus (bus : bus_reply) (c : compass) : list bus_event :=
  [BeginTransmission (_ADDR c); WireWrite 0; EndTransmission]
  ++ (if tx_err bus =? 0 then [RequestFrom (_ADDR c) 6] else []).

(** The control-register byte decoded into its four fields. *)
Definition mode_field (b : Z) : Z := Z.land b 3.
Definition odr_field (b : Z) : Z := Z.land b 12.
Definition rng_field (b : Z) : Z := Z.land b 48.
Definition osr_field (b : Z) : Z := Z.land b 192.

(** The three axis values decoded from the received bytes. *)
Definition decode_sample (buf : list Z) : vec3 Z :=
  let '(x, buf) := read_axis buf in
  let '(y, buf) := read_axis buf in
  let '(z, buf) := read_axis buf in
  V3 x y z.

(** The two bytes of a 16-bit value, low byte first. *)
Definition bytes_of_int16 (v : Z) : list Z := [v mod 256; (v / 256) mod 256].

(** Every entry of the first [n] rows is at least zero, on every axis. *)
Definition rows_nonneg (h : list (vec3 Z)) : Prop :=
  Forall (fun r => 0 <= v0 r /\ 0 <= v1 r /\ 0 <= v2 r) h.

Definition sample_nonneg (s : vec3 Z) : Prop :=
  0 <= v0 s /\ 0 <= v1 s /\ 0 <= v2 s.

(** The cursor and the step count keep every access inside the ten rows. *)
Definition buffer_safe (c : compass) : Prop :=
  0 <= _vScan c /\ _smoothSteps c <= 10 /\ List.length (_vHistory c) = 10%nat.

(** The tracked extrema of each axis are ordered. *)
Definition extrema_ordered (c : compass) : Prop :=
  minX c <= maxX c /\ minY c <= maxY c /\ minZ c <= maxZ c.

(** A sequence of calls that never configures smoothing. *)
Definition is_setSmoothing (o : op) : bool :=
  match o with
  | OpSetSmoothing _ _ => true
  | _ => false
  end.

(** The elapsed time the loop computes at a tick. *)
Definition elapsed_at (startTime currentTime : Z) : Z :=
  (currentTime - startTime) mod 2 ^ ulong_bits.

(** Groups of fields that are the same in two driver objects. *)
Definition same_extrema (c c' : compass) : Prop :=
  minX c = minX c' /\ maxX c = maxX c' /\
  minY c = minY c' /\ maxY c = maxY c' /\
  minZ c = minZ c' /\ maxZ c = maxZ c'.

Definition same_calibration (c c' : compass) : Prop :=
  _offset c = _offset c' /\ _scale c = _scale c'.

Definition same_samples (c c' : compass) : Prop :=
  _vRaw c = _vRaw c' /\ _vCalibrated c = _vCalibrated c'.

Definition same_smoothing (c c' : compass) : Prop :=
  _vHistory c = _vHistory c' /\ _vScan c = _vScan c' /\
  _vTotals c = _vTotals c' /\ _vSmooth c = _vSmooth c'.

(** A sample lies within the tracked extrema. *)
Definition inside_extrema (x y z : Z) (c : compass) : Prop :=
  minX c <= x <= maxX c /\ minY c <= y <= maxY c /\ minZ c <= z <= maxZ c.

(** Offsets 0 and scales 1. *)
Definition identity_calibrated (c : compass) : Prop :=
  _offset c = V3 (of_int 0) (of_int 0) (of_int 0) /\
  _scale c = V3 (of_int 1) (of_int 1) (of_int 1).

(** Basic smoothing over a single step, with the total of each axis equal
    to the one entry held. *)
Definition one_step_ready (c : compass) : Prop :=
  _smoothSteps c = 1 /\ _smoothAdvanced c = false /\ 0 <= _vScan c /\
  (1 <= List.length (_vHistory c))%nat /\
  forall i : axis, vget i (_vTotals c) = cell (_vHistory c) 0 i.

(** A smoothing engine whose divisor is not zero, whose buffer holds no
    negative entry and whose totals are the sums of the entries held. *)
Definition nonneg_ready (c : compass) : Prop :=
  1 <= _smoothSteps c <= 10 /\
  (if _smoothAdvanced c then _smoothSteps c <> 2 else _smoothSteps c <> 0) /\
  0 <= _vScan c /\
  List.length (_vHistory c) = 10%nat /\
  rows_nonneg (_vHistory c) /\
  totals_are_sums c.

(** The call returns a value. *)
Definition returns {A : Type} (r : result A) : Prop := exists a, r = Ok a.

(** Six values are available to the six calls of [wire->read()], each a
    byte. *)
Definition six_bytes (bus : bus_reply) : Prop :=
  (6 <= List.length (rx bus))%nat /\ Forall (fun b => 0 <= b < 256) (rx bus).

(** A sample a 16-bit [int] holds, and not negative. *)
Definition sample_in_range (s : vec3 Z) : Prop :=
  0 <= v0 s <= 32767 /\ 0 <= v1 s <= 32767 /\ 0 <= v2 s <= 32767.

(** No entry of the buffer exceeds [b]. *)
Definition rows_at_most (b : Z) (h : list (vec3 Z)) : Prop :=
  Forall (fun r => v0 r <= b /\ v1 r <= b /\ v2 r <= b) h.

(** A driver with the identity calibration and with auto-calibration and
    smoothing off. *)
Definition plain (c : compass) : Prop :=
  _autoCalibrate c = false /\ _smoothUse c = false /\ identity_calibrated c.

(** A reply whose transmission failed, or that serves the six calls of
    [wire->read()] a byte each. *)
Definition usable_reply (bus : bus_reply) : Prop :=
  tx_err bus <> 0 \/ six_bytes bus.


(** The integers [lo], [lo + 1], ..., [lo + n - 1]. *)
Definition zrange (lo : Z) (n : nat) : list Z :=
  map (fun k => lo + Z.of_nat k) (seq 0 n).

(** The declination stored for [degrees] and [minutes] is at least
    [degrees], above it when there are minutes, and below [degrees + 1]. *)
Definition declination_between (degrees minutes : Z) : bool :=
  let d := Binary32.setMagneticDeclination degrees minutes in
  SFleb (Binary32.of_int degrees) d
  && ((minutes =? 0) || SFltb (Binary32.of_int degrees) d)
  && SFltb d (Binary32.of_int (degrees + 1)).

Definition all_between (lo : Z) (n : nat) : bool :=
  forallb (fun degrees => forallb (declination_between degrees) (zrange 0 60))
          (zrange lo n).

(** * Properties *)

Ltac field_frame :=
  match goal with
  | |- keeps_settings ?c _ => destruct c; repeat split
  end.

(** ** The outcome monad *)

Lemma bind_Ok {A B : Type} (r : result A) (k : A -> result B) (b : B) :
  bind r k = Ok b -> exists a, r = Ok a /\ k a = Ok b.
Proof.
  destruct r as [a | |]; simpl; intro H; try discriminate.
  exists a; split; [reflexivity | exact H].
Qed.

(** ** Rounding and truncation on integers and fractions *)

Lemma Qtrunc_inject_Z (n : Z) : Qtrunc (inject_Z n) = n.
Proof.
  unfold Qtrunc. destruct (Qle_bool 0 (inject_Z n)).
  - apply Qfloor_Z.
  - apply Qceiling_Z.
Qed.

Lemma Qtrunc_nonneg_frac (n : Z) (d : positive) :
  0 <= n -> Qtrunc (n # d) = n / Z.pos d.
Proof.
  intro Hn. unfold Qtrunc, Qle_bool. simpl.
  replace (0 <=? n * 1) with true; [reflexivity |].
  symmetry. apply Z.leb_le. lia.
Qed.

Lemma Qround_away_inject_Z (n : Z) : Qround_away (inject_Z n) = n.
Proof.
  unfold Qround_away, Qtrunc, Qle_bool, inject_Z. simpl.
  rewrite Z.mul_1_r.
  destruct (0 <=? n) eqn:Hn.
  - apply Z.leb_le in Hn.
    replace (0 <=? (n * 2 + 1) * 1) with true
      by (symmetry; apply Z.leb_le; lia).
    symmetry. apply Z.div_unique with (r := 1); lia.
  - apply Z.leb_gt in Hn.
    replace (0 <=? (n * 2 + -1) * 1) with false
      by (symmetry; apply Z.leb_gt; lia).
    unfold Qceiling. simpl.
    assert (H : - (n * 2 + -1) / 2 = - n).
    { symmetry. apply Z.div_unique with (r := 1); lia. }
    rewrite H. lia.
Qed.

Lemma Qle_bool_0_comp (x y : Q) : (x == y)%Q -> Qle_bool 0 x = Qle_bool 0 y.
Proof.
  intro E.
  destruct (Qle_bool 0 x) eqn:Hx, (Qle_bool 0 y) eqn:Hy; try reflexivity.
  - apply Qle_bool_iff in Hx. rewrite E in Hx.
    apply Qle_bool_iff in Hx. congruence.
  - apply Qle_bool_iff in Hy. rewrite <- E in Hy.
    apply Qle_bool_iff in Hy. congruence.
Qed.

Lemma Qtrunc_comp (x y : Q) : (x == y)%Q -> Qtrunc x = Qtrunc y.
Proof.
  intro E. unfold Qtrunc. rewrite (Qle_bool_0_comp x y E).
  destruct (Qle_bool 0 y).
  - apply Qfloor_comp, E.
  - apply Qceiling_comp, E.
Qed.

Lemma Qround_away_comp (x y : Q) :
  (x == y)%Q -> Qround_away x = Qround_away y.
Proof.
  intro E. unfold Qround_away. rewrite (Qle_bool_0_comp x y E).
  destruct (Qle_bool 0 y); apply Qtrunc_comp; rewrite E; reflexivity.
Qed.

(** ** Bearing sectors *)

Lemma to_unsigned_frac (w n : Z) (d : positive) :
  0 <= n -> n / Z.pos d < 2 ^ w ->
  to_unsigned w (Fin (n # d)) = Ok (n / Z.pos d).
Proof.
  intros Hn Hw. unfold to_unsigned.
  rewrite Qtrunc_nonneg_frac by assumption.
  assert (H0 : 0 <= n / Z.pos d) by (apply Z.div_pos; lia).
  apply Z.leb_le in H0. apply Z.ltb_lt in Hw.
  rewrite H0, Hw. reflexivity.
Qed.

(** [azimuth > -0.5] holds exactly for the non-negative integers. *)
Lemma above_minus_half (azimuth : Z) :
  fgt (of_int azimuth) (Fin (- (1 # 2))) = (0 <=? azimuth).
Proof.
  unfold fgt, flt, of_int, Qle_bool. simpl.
  destruct (0 <=? azimuth) eqn:H.
  - apply Z.leb_le in H. apply negb_true_iff, Z.leb_gt. lia.
  - apply Z.leb_gt in H. apply negb_false_iff, Z.leb_le. lia.
Qed.

(** Once [a] is an integer, [r = a - (int)a] is zero, the test [r >= .5]
    fails and [floor(a)] is [a] again. *)
Lemma rounding_test_is_dead (a : Z) :
  0 <= a < 256 ->
  to_unsigned byte_bits
    (if fge (of_int ((a - int_of_ulong a) mod 2 ^ ulong_bits)) (Fin (1 # 2))
     then fceil (of_int a) else ffloor (of_int a)) = Ok a.
Proof.
  intros [Hlo Hhi]. unfold int_of_ulong.
  rewrite Z.sub_diag.
  change (fge (of_int (0 mod 2 ^ ulong_bits)) (Fin (1 # 2))) with false.
  cbv iota. unfold ffloor, of_int, to_unsigned.
  rewrite Qfloor_Z, Qtrunc_inject_Z.
  change (2 ^ byte_bits) with 256.
  apply Z.leb_le in Hlo. apply Z.ltb_lt in Hhi.
  rewrite Hlo, Hhi. reflexivity.
Qed.

(** The quotient is cut to an [unsigned long] before any rounding is tried:
    for an azimuth from 0 up to 5759 the sector is the integer quotient of
    [2 * azimuth] by 45. *)
Lemma getBearing_nonneg (azimuth : Z) :
  0 <= azimuth < 5760 -> getBearing azimuth = Ok (azimuth * 2 / 45).
Proof.
  intros [Hlo Hhi].
  assert (Hq : 0 <= azimuth * 2 / 45 < 256).
  { split; [apply Z.div_pos; lia | apply Z.div_lt_upper_bound; lia]. }
  unfold getBearing. rewrite above_minus_half.
  replace (0 <=? azimuth) with true by (symmetry; apply Z.leb_le; lia).
  change (fdiv (of_int azimuth) (Fin (45 # 2)))
    with (Fin ((azimuth * 2) # 45)).
  rewrite to_unsigned_frac; [| lia | change (2 ^ ulong_bits) with 4294967296; lia].
  unfold bind at 1.
  rewrite rounding_test_is_dead by assumption.
  reflexivity.
Qed.

Lemma getBearing_neg (azimuth : Z) :
  -360 <= azimuth < 0 -> getBearing azimuth = Ok ((azimuth + 360) * 2 / 45).
Proof.
  intros [Hlo Hhi].
  assert (Hq : 0 <= (azimuth + 360) * 2 / 45 < 256).
  { split; [apply Z.div_pos; lia | apply Z.div_lt_upper_bound; lia]. }
  unfold getBearing. rewrite above_minus_half.
  replace (0 <=? azimuth) with false by (symmetry; apply Z.leb_gt; lia).
  change (fdiv (of_int (azimuth + 360)) (Fin (45 # 2)))
    with (Fin (((azimuth + 360) * 2) # 45)).
  rewrite to_unsigned_frac; [| lia | change (2 ^ ulong_bits) with 4294967296; lia].
  unfold bind at 1.
  rewrite rounding_test_is_dead by assumption.
  reflexivity.
Qed.

(** On every value [getAzimuth] can return, the sector is one of the sixteen
    table entries. *)
Lemma getBearing_in_table (azimuth : Z) :
  -360 < azimuth < 360 ->
  exists d, getBearing azimuth = Ok d /\ 0 <= d <= 15.
Proof.
  intros [Hlo Hhi].
  destruct (Z_lt_le_dec azimuth 0) as [Hneg | Hpos].
  - exists ((azimuth + 360) * 2 / 45). split.
    + apply getBearing_neg. lia.
    + split; [apply Z.div_pos; lia |].
      apply Z.lt_succ_r. apply Z.div_lt_upper_bound; lia.
  - exists (azimuth * 2 / 45). split.
    + apply getBearing_nonneg. lia.
    + split; [apply Z.div_pos; lia |].
      apply Z.lt_succ_r. apply Z.div_lt_upper_bound; lia.
Qed.

(** C1.  The specification asks for the sector nearest to azimuth / 22.5,
    halves rounded up.  At azimuth 12 that is sector 1 (12 / 22.5 = 0.53...),
    and at azimuth -348 it is again sector 1; [getBearing] returns sector 0
    for both, because the fraction is dropped before the rounding test. *)
Theorem getBearing_drops_fraction :
  getBearing 12 = Ok 0 /\ spec_bearing 12 = 1 /\
  getBearing (-348) = Ok 0 /\ spec_bearing (-348) = 1.
Proof. repeat split; vm_compute; reflexivity. Qed.

(** C8.  Azimuth 0 gives sector 0, the north entry.  Azimuth 360 gives
    sector 16, one past the last entry of the sixteen-entry table, so
    [getDirection] reads outside [_bearings]. *)
Theorem getBearing_360_is_16 :
  getBearing 0 = Ok 0 /\ getDirection 0 = Ok "  N"%string /\
  getBearing 360 = Ok 16 /\ getDirection 360 = Undef /\
  List.length _bearings = 16%nat.
Proof. repeat split; vm_compute; reflexivity. Qed.

(** ** Auto-calibration session *)

Lemma totalMillis_of_zero (uint_bits : Z) :
  totalMillis_of uint_bits 0 = 10000000 mod 2 ^ uint_bits.
Proof. reflexivity. Qed.

(** C2.  With [seconds = 0] the code sets [seconds] to 10000 and then
    multiplies by 1000: the budget is 10000000 ms with a 32-bit
    [unsigned int] and 38528 ms with a 16-bit one, not 10000 ms.  With a
    clock that reads 0 and then 10000 the loop has not ended; it ends at the
    tick that reads 10000000. *)
Theorem calibrate_zero_seconds_budget :
  totalMillis_of 32 0 = 10000000 /\
  totalMillis_of 16 0 = 38528 /\
  calibrate 32 0 0
    [(0, reply_ok 1 0 2 0 3 0); (10000, reply_ok 1 0 2 0 3 0)]
    QMC5883LCompass = Blocked /\
  exists c log,
    calibrate 32 0 0
      [(0, reply_ok 1 0 2 0 3 0); (10000, reply_ok 1 0 2 0 3 0);
       (10000000, reply_ok 1 0 2 0 3 0)]
      QMC5883LCompass = Ok (c, log).
Proof.
  split; [reflexivity |]. split; [reflexivity |].
  split; [vm_compute; reflexivity |].
  eexists; eexists. vm_compute. reflexivity.
Qed.

(** ** Smoothing engine *)

Lemma sum_set_row_same (i : axis) (v : Z) (h : list (vec3 Z)) :
  forall n j : nat,
    (j < n)%nat -> (j < List.length h)%nat ->
    fold_right Z.add 0 (map (vget i) (firstn n (set_row h j (vset i v))))
      = fold_right Z.add 0 (map (vget i) (firstn n h))
        - vget i (nth j h zero3) + v.
Proof.
  induction h as [| r h IH]; intros n j Hn Hj; simpl in Hj; [lia |].
  destruct n as [| n]; [lia |].
  destruct j as [| j]; simpl.
  - destruct i; simpl; lia.
  - rewrite IH by lia. lia.
Qed.

Lemma nth_set_row_same (i : axis) (v : Z) (h : list (vec3 Z)) :
  forall j : nat,
    (j < List.length h)%nat ->
    vget i (nth j (set_row h j (vset i v)) zero3) = v.
Proof.
  induction h as [| r h IH]; intros j Hj; simpl in Hj; [lia |].
  destruct j as [| j]; simpl.
  - destruct i; reflexivity.
  - apply IH. lia.
Qed.

Lemma vTotals_smooth_axis (i : axis) (c c' : compass) :
  smooth_axis i c = Ok c' ->
  let evicted := cell (_vHistory c) (_vScan c) i in
  let h := set_cell (_vHistory c) (_vScan c) i (vget i (_vCalibrated c)) in
  _vHistory c' = h /\
  vget i (_vTotals c') =
    (if negb (vget i (_vTotals c) =? 0)
     then vget i (_vTotals c) - evicted else vget i (_vTotals c))
    + cell h (_vScan c) i.
Proof.
  unfold smooth_axis. intro H.
  destruct (_smoothAdvanced _);
    apply bind_Ok in H as (s & _ & H); injection H as <-;
    destruct c; destruct i; split; reflexivity.
Qed.

(** One call keeps the total of an axis equal to the sum of the entries
    held, unless the total is zero while the evicted entry is not: the
    subtraction is then skipped. *)
Lemma smooth_axis_keeps_sum (i : axis) (c c' : compass) :
  0 <= _vScan c < _smoothSteps c ->
  (Z.to_nat (_smoothSteps c) <= List.length (_vHistory c))%nat ->
  smooth_axis i c = Ok c' ->
  vget i (_vTotals c) = ring_sum (_smoothSteps c) i (_vHistory c) ->
  vget i (_vTotals c) <> 0 \/ cell (_vHistory c) (_vScan c) i = 0 ->
  vget i (_vTotals c') = ring_sum (_smoothSteps c) i (_vHistory c').
Proof.
  intros Hscan Hlen H Hinv Hguard.
  apply vTotals_smooth_axis in H. destruct H as [Hh Ht].
  rewrite Ht, Hh. unfold ring_sum, set_cell, cell.
  rewrite sum_set_row_same by lia.
  rewrite nth_set_row_same by lia.
  fold (cell (_vHistory c) (_vScan c) i).
  fold (ring_sum (_smoothSteps c) i (_vHistory c)). rewrite <- Hinv.
  destruct (vget i (_vTotals c) =? 0) eqn:E; simpl.
  - apply Z.eqb_eq in E. destruct Hguard as [Hne | Hz]; [contradiction | lia].
  - lia.
Qed.

(** ** The buffer cursor *)

Lemma length_set_row (f : vec3 Z -> vec3 Z) (h : list (vec3 Z)) :
  forall n : nat, List.length (set_row h n f) = List.length h.
Proof.
  induction h as [| r h IH]; intro n; [reflexivity |].
  destruct n; simpl; [reflexivity | f_equal; apply IH].
Qed.

Lemma buffer_smooth_axis (i : axis) (c c' : compass) :
  smooth_axis i c = Ok c' ->
  _vScan c' = _vScan c /\
  List.length (_vHistory c') = List.length (_vHistory c).
Proof.
  intro H. pose proof (vTotals_smooth_axis i c c' H) as [Hh _].
  split.
  - unfold smooth_axis in H.
    destruct (_smoothAdvanced _);
      apply bind_Ok in H as (s & _ & H); injection H as <-;
      destruct c; reflexivity.
  - rewrite Hh. apply length_set_row.
Qed.

(** The slot [_smoothing] writes is inside the ten-row buffer whenever the
    step count is at most ten, as [setSmoothing] ensures. *)
Lemma smoothing_cursor_in_buffer (c c' : compass) :
  0 <= _vScan c -> _smoothSteps c <= 10 ->
  _smoothing c = Ok c' ->
  let slot := if _vScan c >? _smoothSteps c - 1 then 0 else _vScan c in
  0 <= slot < 10 /\ _vScan c' = slot + 1 /\
  List.length (_vHistory c') = List.length (_vHistory c).
Proof.
  intros Hscan Hsteps H. unfold _smoothing in H.
  apply bind_Ok in H as (c1 & H1 & H).
  apply bind_Ok in H as (c2 & H2 & H).
  apply bind_Ok in H as (c3 & H3 & H).
  injection H as <-.
  apply buffer_smooth_axis in H1, H2, H3.
  destruct H1 as [S1 L1], H2 as [S2 L2], H3 as [S3 L3].
  assert (E : _vScan (set_vScan (_vScan c3 + 1) c3) = _vScan c3 + 1)
    by (destruct c3; reflexivity).
  assert (L : _vHistory (set_vScan (_vScan c3 + 1) c3) = _vHistory c3)
    by (destruct c3; reflexivity).
  rewrite E, L, S3, S2, S1, L3, L2, L1.
  destruct (_vScan c >? _smoothSteps c - 1) eqn:G.
  - split; [lia |]. destruct c; simpl. split; reflexivity.
  - rewrite Z.gtb_ltb in G. apply Z.ltb_ge in G.
    split; [lia |]. split; reflexivity.
Qed.

Lemma smoothSteps_setSmoothing (steps : Z) (adv : bool) (c : compass) :
  _smoothSteps (setSmoothing steps adv c) <= 10.
Proof.
  replace (_smoothSteps (setSmoothing steps adv c))
    with (if steps mod 2 ^ byte_bits >? 10 then 10 else steps mod 2 ^ byte_bits)
    by (destruct c; reflexivity).
  destruct (steps mod 2 ^ byte_bits >? 10) eqn:G; [lia |].
  rewrite Z.gtb_ltb in G. apply Z.ltb_ge in G. exact G.
Qed.

(** C3.  With two steps and the samples 5, -5, 3 the total is 0 after the
    second sample; the third call then skips the subtraction of the evicted
    5, because the guard [_vTotals[i] != 0] is false.  The buffer holds 3 and
    -5, which sum to -2, and the total is 3.  The same state is reached
    through [read] when the bus delivers these three samples. *)
Theorem totals_drift_after_zero_total :
  exists c,
    feed_all (map same3 [5; -5; 3]) (setSmoothing 2 false QMC5883LCompass)
      = Ok c /\
    firstn 2 (_vHistory c) = [same3 3; same3 (-5)] /\
    ring_sum (_smoothSteps c) Ax0 (_vHistory c) = -2 /\
    vget Ax0 (_vTotals c) = 3 /\
    ~ totals_are_sums c /\
    exists c',
      run 32 [ OpSetSmoothing 2 false;
               OpRead (reply_ok 5 0 5 0 5 0);
               OpRead (reply_ok 251 255 251 255 251 255);
               OpRead (reply_ok 3 0 3 0 3 0) ] QMC5883LCompass = Ok c' /\
      _vHistory c' = _vHistory c /\ _vTotals c' = _vTotals c.
Proof.
  eexists. split; [vm_compute; reflexivity |].
  split; [reflexivity |]. split; [reflexivity |]. split; [reflexivity |].
  split.
  - intro H. specialize (H Ax0). vm_compute in H. discriminate H.
  - eexists. split; [vm_compute; reflexivity |]. split; reflexivity.
Qed.

(** C4.  After 10, 20, 30, 40, 50 with five steps in advanced mode the
    total is 150.  The scan for the maximum stops before the last slot, so it
    finds 40 in slot 3 and not the 50 in slot 4; the minimum is 10.  The
    smoothed value is round((150 - (40 + 10)) / 3) = 33, not 30.  [getX]
    returns the same 33 when the samples come in through [read]. *)
Theorem advanced_smoothing_five_samples :
  exists c,
    feed_all (map same3 [10; 20; 30; 40; 50])
      (setSmoothing 5 true QMC5883LCompass) = Ok c /\
    _vTotals c = same3 150 /\
    scan_max (_vHistory c) Ax0 (_smoothSteps c - 1) = 3 /\
    cell (_vHistory c) 3 Ax0 = 40 /\
    cell (_vHistory c) 4 Ax0 = 50 /\
    scan_min (_vHistory c) Ax0 (_smoothSteps c - 1) = 0 /\
    cell (_vHistory c) 0 Ax0 = 10 /\
    _vSmooth c = same3 33 /\
    exists c',
      run 32 [ OpSetSmoothing 5 true;
               OpRead (reply_ok 10 0 10 0 10 0);
               OpRead (reply_ok 20 0 20 0 20 0);
               OpRead (reply_ok 30 0 30 0 30 0);
               OpRead (reply_ok 40 0 40 0 40 0);
               OpRead (reply_ok 50 0 50 0 50 0) ] QMC5883LCompass = Ok c' /\
      getX c' = 33 /\ getY c' = 33 /\ getZ c' = 33.
Proof.
  eexists. split; [vm_compute; reflexivity |].
  do 7 (split; [reflexivity |]).
  eexists. split; [vm_compute; reflexivity |]. repeat split; reflexivity.
Qed.

(** ** Calibration model *)

Lemma fdiv_Fin (x y : Q) :
  ~ (y == 0)%Q -> fdiv (Fin x) (Fin y) = Fin (x / y).
Proof.
  intro Hy. unfold fdiv.
  destruct (Qeq_bool y 0) eqn:E; [| reflexivity].
  apply Qeq_bool_iff in E. contradiction.
Qed.

Lemma offset_set_scale (v : vec3 cfloat) (c : compass) :
  _offset (set_scale v c) = _offset c.
Proof. destruct c; reflexivity. Qed.

Lemma offset_set_offset (v : vec3 cfloat) (c : compass) :
  _offset (set_offset v c) = v.
Proof. destruct c; reflexivity. Qed.

Lemma scale_set_scale (v : vec3 cfloat) (c : compass) :
  _scale (set_scale v c) = v.
Proof. destruct c; reflexivity. Qed.

(** The direct setters are read back unchanged by the indexed accessors. *)
Lemma getCalibrationOffset_set (x y z : cfloat) (c : compass) :
  let c' := setCalibrationOffsets x y z c in
  getCalibrationOffset 0 c' = Ok x /\
  getCalibrationOffset 1 c' = Ok y /\
  getCalibrationOffset 2 c' = Ok z.
Proof. destruct c; repeat split. Qed.

Lemma getCalibrationScale_set (x y z : cfloat) (c : compass) :
  let c' := setCalibrationScales x y z c in
  getCalibrationScale 0 c' = Ok x /\
  getCalibrationScale 1 c' = Ok y /\
  getCalibrationScale 2 c' = Ok z.
Proof. destruct c; repeat split. Qed.


(** The z offset of the extrema 4097 and 4099 is the rounded product:
    8396802, where the exact half product is 8396801.5. *)
Example setCalibration_rounds_z_offset :
  v2 (fst (Binary32.setCalibration 0 2 0 2 4097 4099))
  = Binary32.of_int 8396802.
Proof. vm_compute. reflexivity. Qed.

(** The extrema 16777216 and 16777217 convert to the same float: the delta
    is zero and the scale an infinity. *)
Example setCalibration_zero_float_delta :
  v0 (snd (Binary32.setCalibration 16777216 16777217 0 2 0 2))
  = S754_infinity false.
Proof. vm_compute. reflexivity. Qed.

(** ** Reading a sample *)

(** C6.  When [endTransmission] reports an error, [read] returns false and
    the driver object is the one it was called on: raw, calibrated and
    smoothed values, history, totals, cursor, offsets, scales and extrema are
    all untouched. *)
Theorem read_transport_error (bus : bus_reply) (c : compass) :
  tx_err bus <> 0 -> read bus c = Ok (c, false).
Proof.
  intro Herr. unfold read.
  apply Z.eqb_neq in Herr. rewrite Herr. reflexivity.
Qed.

Lemma read_transport_error_witness :
  tx_err (BusReply 2 [1; 0; 2; 0; 3; 0]) <> 0 /\
  read (BusReply 2 [1; 0; 2; 0; 3; 0])
       (setSmoothing 3 false (setAutocalibrate true QMC5883LCompass))
    = Ok (setSmoothing 3 false (setAutocalibrate true QMC5883LCompass), false).
Proof.
  split.
  - simpl. lia.
  - apply (read_transport_error (BusReply 2 [1; 0; 2; 0; 3; 0])).
    simpl. lia.
Defined.

(** ** Calibration applier *)

Lemma offset_clearCalibration (c : compass) :
  _offset (clearCalibration c) = V3 (of_int 0) (of_int 0) (of_int 0).
Proof. destruct c; reflexivity. Qed.

Lemma scale_clearCalibration (c : compass) :
  _scale (clearCalibration c) = V3 (of_int 1) (of_int 1) (of_int 1).
Proof. destruct c; reflexivity. Qed.

Lemma vRaw_clearCalibration (c : compass) :
  _vRaw (clearCalibration c) = _vRaw c.
Proof. destruct c; reflexivity. Qed.

(** Offset 0 and scale 1 leave an integer as it is. *)
Lemma identity_calibration (n : Z) :
  round_to_int (fmul (fsub (of_int n) (of_int 0)) (of_int 1)) = Ok n.
Proof.
  unfold round_to_int, fmul, fsub, of_int. f_equal.
  rewrite <- (Qround_away_inject_Z n) at 2.
  apply Qround_away_comp. ring.
Qed.

(** C7.  After [clearCalibration], applying the calibration stores the raw
    sample itself as the calibrated sample, on the three axes. *)
Theorem clearCalibration_is_identity (c : compass) :
  _applyCalibration (clearCalibration c)
    = Ok (set_vCalibrated (_vRaw c) (clearCalibration c)).
Proof.
  unfold _applyCalibration.
  rewrite offset_clearCalibration, scale_clearCalibration,
    vRaw_clearCalibration.
  simpl vget. rewrite !identity_calibration. simpl.
  destruct (_vRaw c). reflexivity.
Qed.

(** ** Heading calculator *)

Lemma rem_360_range (h : Z) : -360 < Z.rem h 360 < 360.
Proof.
  assert (H : Z.abs (Z.rem h 360) < Z.abs 360) by (apply Z.rem_bound_abs; lia).
  lia.
Qed.

(** What [getAzimuth] returns, whenever it returns. *)
Lemma getAzimuth_Ok (int_bits dprec demax : Z) (atan2 : Z -> Z -> spec_float)
  (PI : spec_float) (x y : Z) (declination : spec_float) (r : Z) :
  Binary32.getAzimuth int_bits dprec demax atan2 PI x y declination = Ok r ->
  exists h,
    Binary32.trunc (Binary32.heading dprec demax atan2 PI x y declination)
      = Some h /\
    - 2 ^ (int_bits - 1) <= h < 2 ^ (int_bits - 1) /\
    r = Z.rem h 360.
Proof.
  unfold Binary32.getAzimuth, Binary32.to_int. intro H.
  destruct (Binary32.trunc _) as [h |]; [| discriminate H].
  destruct (- 2 ^ (int_bits - 1) <=? h) eqn:E1; [| discriminate H].
  destruct (h <? 2 ^ (int_bits - 1)) eqn:E2; [| discriminate H].
  simpl in H. injection H as <-.
  apply Z.leb_le in E1. apply Z.ltb_lt in E2.
  exists h. repeat split; assumption.
Qed.

Lemma getAzimuth_fits (int_bits dprec demax : Z) (atan2 : Z -> Z -> spec_float)
  (PI : spec_float) (x y : Z) (declination : spec_float) (h : Z) :
  Binary32.trunc (Binary32.heading dprec demax atan2 PI x y declination)
    = Some h ->
  - 2 ^ (int_bits - 1) <= h < 2 ^ (int_bits - 1) ->
  Binary32.getAzimuth int_bits dprec demax atan2 PI x y declination
    = Ok (Z.rem h 360).
Proof.
  intros Ht [Hlo Hhi]. unfold Binary32.getAzimuth, Binary32.to_int.
  rewrite Ht. apply Z.leb_le in Hlo. apply Z.ltb_lt in Hhi.
  rewrite Hlo, Hhi. reflexivity.
Qed.

(** C9, as stated, fails: not every configured declination lets
    [getAzimuth] return.  After [setMagneticDeclination(2147483647, 0)] on a
    32-bit board the heading is 2147483648.0, which does not fit an [int];
    the conversion is undefined. *)
Lemma getAzimuth_undefined_outside_int :
  Binary32.setMagneticDeclination 2147483647 0 = Binary32.of_int 2147483648 /\
  Binary32.getAzimuth 32 53 1024 (fun _ _ => S754_zero false) pi_double 0 0
    (Binary32.setMagneticDeclination 2147483647 0) = Undef.
Proof. split; vm_compute; reflexivity. Qed.

(** C9, amended.  Whenever the integral part [h] of the float heading
    (atan2 in degrees plus the declination) fits an [int], [getAzimuth]
    returns the truncating remainder of [h] by 360: an integer strictly
    between -360 and 360 that has the sign of [h], so it is negative or zero
    for a negative heading and is not normalised to 0..359. *)
Theorem getAzimuth_truncating_remainder (int_bits dprec demax : Z)
  (atan2 : Z -> Z -> spec_float) (PI : spec_float) (x y : Z)
  (declination : spec_float) (h : Z) :
  Binary32.trunc (Binary32.heading dprec demax atan2 PI x y declination)
    = Some h ->
  - 2 ^ (int_bits - 1) <= h < 2 ^ (int_bits - 1) ->
  Binary32.getAzimuth int_bits dprec demax atan2 PI x y declination
    = Ok (Z.rem h 360) /\
  -360 < Z.rem h 360 < 360 /\
  Z.rem h 360 = h - 360 * (h ÷ 360) /\
  (0 <= h -> 0 <= Z.rem h 360) /\
  (h <= 0 -> Z.rem h 360 <= 0) /\
  (h < 0 -> Z.rem h 360 <> 0 -> Z.rem h 360 < 0).
Proof.
  intros Ht Hr.
  split; [apply getAzimuth_fits; assumption |].
  split; [apply rem_360_range |].
  split; [pose proof (Z.quot_rem' h 360); lia |].
  split; [intro H0; apply Z.rem_nonneg; lia |].
  assert (Hn : h <= 0 -> Z.rem h 360 <= 0)
    by (intro H0; apply Z.rem_nonpos; lia).
  split; [exact Hn |].
  intros H0 Hnz. specialize (Hn ltac:(lia)). lia.
Qed.

(** A heading of -45 degrees with the declination of
    [setMagneticDeclination(-19, 43)], which is about -18.28: the value
    returned is -63. *)
Lemma getAzimuth_truncating_remainder_witness :
  Binary32.trunc
    (Binary32.heading 53 1024 (fun _ _ => minus_quarter_pi_double) pi_double
       100 (-100) (Binary32.setMagneticDeclination (-19) 43)) = Some (-63) /\
  - 2 ^ (32 - 1) <= -63 < 2 ^ (32 - 1) /\
  Binary32.getAzimuth 32 53 1024 (fun _ _ => minus_quarter_pi_double)
    pi_double 100 (-100) (Binary32.setMagneticDeclination (-19) 43)
    = Ok (Z.rem (-63) 360) /\
  -360 < Z.rem (-63) 360 < 360 /\
  Z.rem (-63) 360 = -63 - 360 * (-63 ÷ 360) /\
  (0 <= -63 -> 0 <= Z.rem (-63) 360) /\
  (-63 <= 0 -> Z.rem (-63) 360 <= 0) /\
  (-63 < 0 -> Z.rem (-63) 360 <> 0 -> Z.rem (-63) 360 < 0).
Proof.
  split; [vm_compute; reflexivity |].
  split; [vm_compute; split; [discriminate | reflexivity] |].
  apply (getAzimuth_truncating_remainder 32 53 1024
           (fun _ _ => minus_quarter_pi_double) pi_double 100 (-100)
           (Binary32.setMagneticDeclination (-19) 43) (-63)).
  - vm_compute. reflexivity.
  - vm_compute. split; [discriminate | reflexivity].
Defined.

(** ** Settings that only the configuration calls assign *)

Lemma keeps_settings_refl (c : compass) : keeps_settings c c.
Proof. repeat split. Qed.

Lemma keeps_settings_trans (c1 c2 c3 : compass) :
  keeps_settings c1 c2 -> keeps_settings c2 c3 -> keeps_settings c1 c3.
Proof.
  unfold keeps_settings. intros (A1 & A2 & A3 & A4 & A5 & A6) (B1 & B2 & B3 & B4 & B5 & B6).
  repeat split; congruence.
Qed.

Lemma keeps_setCalibrationOffsets (x y z : cfloat) (c : compass) :
  keeps_settings c (setCalibrationOffsets x y z c).
Proof. field_frame. Qed.

Lemma keeps_setCalibrationScales (x y z : cfloat) (c : compass) :
  keeps_settings c (setCalibrationScales x y z c).
Proof. field_frame. Qed.

Lemma keeps_setCalibration (a b d e f g : Z) (c : compass) :
  keeps_settings c (setCalibration a b d e f g c).
Proof. field_frame. Qed.

Lemma keeps_clearCalibration (c : compass) :
  keeps_settings c (clearCalibration c).
Proof. field_frame. Qed.

Lemma keeps_extrema (a b d e f g : Z) (c : compass) :
  keeps_settings c
    (set_maxZ a (set_minZ b (set_maxY d (set_minY e (set_maxX f (set_minX g c)))))).
Proof. field_frame. Qed.

Lemma keeps_update_extrema (x y z : Z) (c : compass) :
  keeps_settings c (fst (update_extrema x y z c)).
Proof.
  unfold update_extrema.
  destruct (track x (minX c) (maxX c) false) as [[nx mx] fx].
  destruct (track y (minY c) (maxY c) fx) as [[ny my] fy].
  destruct (track z (minZ c) (maxZ c) fy) as [[nz mz] fz].
  apply keeps_extrema.
Qed.

Lemma keeps_applyCalibrationIfNecessary (x y z : Z) (c : compass) :
  keeps_settings c (fst (_applyCalibrationIfNecessary x y z c)).
Proof.
  unfold _applyCalibrationIfNecessary.
  pose proof (keeps_update_extrema x y z c) as H.
  destruct (update_extrema x y z c) as [c1 found]. simpl in H.
  destruct found; simpl; [| exact H].
  eapply keeps_settings_trans; [exact H | apply keeps_setCalibration].
Qed.

Lemma keeps_applyCalibration (c c' : compass) :
  _applyCalibration c = Ok c' -> keeps_settings c c'.
Proof.
  unfold _applyCalibration. intro H.
  apply bind_Ok in H as (c0 & _ & H).
  apply bind_Ok in H as (c1 & _ & H).
  apply bind_Ok in H as (c2 & _ & H).
  injection H as <-. field_frame.
Qed.

Lemma keeps_smooth_axis (i : axis) (c c' : compass) :
  smooth_axis i c = Ok c' -> keeps_settings c c'.
Proof.
  unfold smooth_axis. intro H.
  destruct (_smoothAdvanced _);
    apply bind_Ok in H as (s & _ & H); injection H as <-; field_frame.
Qed.

Lemma keeps_smoothing (c c' : compass) :
  _smoothing c = Ok c' -> keeps_settings c c'.
Proof.
  unfold _smoothing. intro H.
  apply bind_Ok in H as (c1 & H1 & H).
  apply bind_Ok in H as (c2 & H2 & H).
  apply bind_Ok in H as (c3 & H3 & H).
  injection H as <-.
  apply keeps_smooth_axis in H1, H2, H3.
  eapply keeps_settings_trans; [| eapply keeps_settings_trans;
    [exact H1 | eapply keeps_settings_trans;
      [exact H2 | eapply keeps_settings_trans; [exact H3 |]]]].
  - destruct (_vScan c >? _smoothSteps c - 1);
      [field_frame | apply keeps_settings_refl].
  - field_frame.
Qed.

Lemma keeps_read (bus : bus_reply) (c c' : compass) (found : bool) :
  read bus c = Ok (c', found) -> keeps_settings c c'.
Proof.
  unfold read. intro H.
  destruct (tx_err bus =? 0).
  - destruct (read_axis (rx bus)) as [x buf0].
    destruct (read_axis buf0) as [y buf1].
    destruct (read_axis buf1) as [z buf2].
    assert (Hc : exists c1 f1,
               (if _autoCalibrate c then _applyCalibrationIfNecessary x y z c
                else (c, false)) = (c1, f1) /\ keeps_settings c c1).
    { destruct (_autoCalibrate c).
      - pose proof (keeps_applyCalibrationIfNecessary x y z c) as K.
        destruct (_applyCalibrationIfNecessary x y z c) as [c1 f1].
        exists c1, f1. split; [reflexivity | exact K].
      - exists c, false. split; [reflexivity | apply keeps_settings_refl]. }
    destruct Hc as (c1 & f1 & E & K1). rewrite E in H.
    apply bind_Ok in H as (c2 & H2 & H).
    apply bind_Ok in H as (c3 & H3 & H).
    injection H as <- _.
    apply keeps_applyCalibration in H2.
    eapply keeps_settings_trans; [exact K1 |].
    eapply keeps_settings_trans; [| eapply keeps_settings_trans; [exact H2 |]].
    + field_frame.
    + destruct (_smoothUse c2).
      * apply keeps_smoothing. exact H3.
      * injection H3 as <-. apply keeps_settings_refl.
  - injection H as <- _. apply keeps_settings_refl.
Qed.

Lemma keeps_calibrate_loop (totalMillis startTime : Z)
  (ticks : list (Z * bus_reply)) :
  forall (c : compass) (log : list progress_event) (c' : compass)
         (log' : list progress_event),
    calibrate_loop totalMillis startTime ticks c log = Ok (c', log') ->
    keeps_settings c c'.
Proof.
  induction ticks as [| [currentTime bus] ticks IH]; intros c log c' log' H.
  - discriminate H.
  - cbn [calibrate_loop] in H.
    apply bind_Ok in H as ([c1 f1] & Hr & H).
    apply keeps_read in Hr.
    pose proof (keeps_update_extrema (getX c1) (getY c1) (getZ c1) c1) as K.
    destruct (update_extrema (getX c1) (getY c1) (getZ c1) c1) as [c2 f2].
    simpl in K.
    assert (K2 : keeps_settings c c2)
      by (eapply keeps_settings_trans; [exact Hr | exact K]).
    destruct (_ <? totalMillis).
    + eapply keeps_settings_trans; [exact K2 | eapply IH; exact H].
    + injection H as <- _. exact K2.
Qed.

Lemma keeps_calibrate (uint_bits seconds startTime : Z)
  (ticks : list (Z * bus_reply)) (c c' : compass)
  (log : list progress_event) :
  calibrate uint_bits seconds startTime ticks c = Ok (c', log) ->
  keeps_settings c c'.
Proof.
  unfold calibrate. intro H.
  apply bind_Ok in H as ([c1 log1] & Hl & H).
  injection H as <- _.
  apply keeps_calibrate_loop in Hl.
  eapply keeps_settings_trans; [| eapply keeps_settings_trans;
    [exact Hl | apply keeps_setCalibration]].
  eapply keeps_settings_trans; [apply keeps_clearCalibration |].
  field_frame.
Qed.

Lemma smoothUse_setSmoothing (steps : Z) (adv : bool) (c : compass) :
  _smoothUse (setSmoothing steps adv c) = true.
Proof. destruct c; reflexivity. Qed.

(** No public call clears the flag. *)
Lemma exec_smoothUse (uint_bits : Z) (o : op) (c c' : compass) :
  exec uint_bits o c = Ok c' -> _smoothUse c = true -> _smoothUse c' = true.
Proof.
  intros H Hs. destruct o; simpl in H.
  - injection H as <-. exact Hs.
  - injection H as <-. destruct c; exact Hs.
  - injection H as <-. destruct c; exact Hs.
  - injection H as <-. exact Hs.
  - injection H as <-. destruct c; exact Hs.
  - injection H as <-. apply smoothUse_setSmoothing.
  - apply bind_Ok in H as ([c1 log] & Hc & H). injection H as <-.
    apply keeps_calibrate in Hc. destruct Hc as (E & _). congruence.
  - injection H as <-.
    destruct (keeps_setCalibration x_min x_max y_min y_max z_min z_max c)
      as (E & _). congruence.
  - injection H as <-.
    destruct (keeps_setCalibrationOffsets x_offset y_offset z_offset c)
      as (E & _). congruence.
  - injection H as <-.
    destruct (keeps_setCalibrationScales x_scale y_scale z_scale c)
      as (E & _). congruence.
  - injection H as <-.
    destruct (keeps_clearCalibration c) as (E & _). congruence.
  - injection H as <-. exact Hs.
  - apply bind_Ok in H as ([c1 found] & Hc & H). injection H as <-.
    apply keeps_read in Hc. destruct Hc as (E & _). congruence.
Qed.

Lemma run_smoothUse (uint_bits : Z) (ops : list op) :
  forall c c' : compass,
    run uint_bits ops c = Ok c' -> _smoothUse c = true -> _smoothUse c' = true.
Proof.
  induction ops as [| o ops IH]; intros c c' H Hs.
  - injection H as <-. exact Hs.
  - cbn [run] in H. apply bind_Ok in H as (c1 & H1 & H).
    apply (IH c1 c' H). apply (exec_smoothUse uint_bits o c c1 H1 Hs).
Qed.

(** C10.  After [setSmoothing], whatever public calls follow, the flag
    [_smoothUse] is still set, and [getX], [getY] and [getZ] return the
    smoothed values. *)
Theorem smoothing_stays_enabled (uint_bits steps : Z) (adv : bool)
  (ops : list op) (c c' : compass) :
  run uint_bits ops (setSmoothing steps adv c) = Ok c' ->
  _smoothUse c' = true /\
  getX c' = v0 (_vSmooth c') /\
  getY c' = v1 (_vSmooth c') /\
  getZ c' = v2 (_vSmooth c').
Proof.
  intro H.
  assert (Hs : _smoothUse c' = true).
  { apply (run_smoothUse uint_bits ops _ c' H), smoothUse_setSmoothing. }
  unfold getX, getY, getZ, _get. rewrite Hs. repeat split.
Qed.

Lemma smoothing_stays_enabled_witness :
  exists c',
    run 32
      [ OpRead (reply_ok 10 0 20 0 30 0);
        OpClearCalibration;
        OpCalibrate 1 0 [(5, reply_ok 1 0 2 0 3 0); (1005, reply_ok 9 0 8 0 7 0)];
        OpSetSmoothing 2 false;
        OpSetAutocalibrate true;
        OpRead (reply_ok 40 0 50 0 60 0);
        OpSetCalibration (-100) 100 (-100) 100 (-100) 100;
        OpRead (BusReply 4 []) ]
      (setSmoothing 3 true QMC5883LCompass) = Ok c' /\
    _smoothUse c' = true /\
    getX c' = v0 (_vSmooth c') /\
    getY c' = v1 (_vSmooth c') /\
    getZ c' = v2 (_vSmooth c').
Proof.
  eexists. split.
  - vm_compute. reflexivity.
  - apply (smoothing_stays_enabled 32 3 true
             [ OpRead (reply_ok 10 0 20 0 30 0);
               OpClearCalibration;
               OpCalibrate 1 0
                 [(5, reply_ok 1 0 2 0 3 0); (1005, reply_ok 9 0 8 0 7 0)];
               OpSetSmoothing 2 false;
               OpSetAutocalibrate true;
               OpRead (reply_ok 40 0 50 0 60 0);
               OpSetCalibration (-100) 100 (-100) 100 (-100) 100;
               OpRead (BusReply 4 []) ]
             QMC5883LCompass).
    vm_compute. reflexivity.
Defined.

(** * Further properties of the driver *)

(** ** Bearing and direction *)

(** For an azimuth from -360 up to 5759 the sector is the integer quotient
    of twice the (shifted) azimuth by 45: the fraction is dropped, never
    rounded up. *)
Theorem getBearing_is_floor (azimuth : Z) :
  -360 <= azimuth < 5760 ->
  getBearing azimuth
    = Ok ((if azimuth <? 0 then azimuth + 360 else azimuth) * 2 / 45).
Proof.
  intro H. destruct (azimuth <? 0) eqn:E.
  - apply Z.ltb_lt in E. apply getBearing_neg. lia.
  - apply Z.ltb_ge in E. apply getBearing_nonneg. lia.
Qed.

Lemma getBearing_is_floor_witness :
  (-360 <= 359 < 5760) /\ getBearing 359 = Ok 15.
Proof.
  split; [lia |]. apply (getBearing_is_floor 359). lia.
Defined.

(** For every azimuth strictly between -360 and 360, [getDirection] stays
    inside the table and writes the name of the sector [getBearing] gives. *)
Theorem getDirection_in_table (azimuth : Z) :
  -360 < azimuth < 360 ->
  exists d name,
    getBearing azimuth = Ok d /\ 0 <= d <= 15 /\
    nth_error _bearings (Z.to_nat d) = Some name /\
    getDirection azimuth = Ok name.
Proof.
  intro H. destruct (getBearing_in_table azimuth H) as (d & Hd & Hr).
  assert (Hn : (Z.to_nat d < List.length _bearings)%nat)
    by (change (List.length _bearings) with 16%nat; lia).
  destruct (nth_error _bearings (Z.to_nat d)) as [name |] eqn:E.
  - exists d, name. repeat split; try assumption; try lia.
    unfold getDirection. rewrite Hd. simpl. rewrite E. reflexivity.
  - apply nth_error_None in E. lia.
Qed.

Lemma getDirection_in_table_witness :
  (-360 < -23 < 360) /\
  exists d name,
    getBearing (-23) = Ok d /\ 0 <= d <= 15 /\
    nth_error _bearings (Z.to_nat d) = Some name /\
    getDirection (-23) = Ok name.
Proof.
  split; [lia |]. apply (getDirection_in_table (-23)). lia.
Defined.

(** Past the last sector the table is left: from azimuth 360 up to 5759
    [getBearing] returns a sector of 16 or more and [getDirection] reads
    outside [_bearings]. *)
Theorem getDirection_past_table (azimuth : Z) :
  360 <= azimuth < 5760 ->
  exists d, getBearing azimuth = Ok d /\ 16 <= d /\ getDirection azimuth = Undef.
Proof.
  intro H. exists (azimuth * 2 / 45).
  assert (Hb : getBearing azimuth = Ok (azimuth * 2 / 45))
    by (apply getBearing_nonneg; lia).
  assert (Hd : 16 <= azimuth * 2 / 45) by (apply Z.div_le_lower_bound; lia).
  repeat split; try assumption.
  unfold getDirection. rewrite Hb. simpl.
  assert (E : nth_error _bearings (Z.to_nat (azimuth * 2 / 45)) = None).
  { apply nth_error_None. change (List.length _bearings) with 16%nat. lia. }
  rewrite E. reflexivity.
Qed.

Lemma getDirection_past_table_witness :
  (360 <= 400 < 5760) /\
  exists d, getBearing 400 = Ok d /\ 16 <= d /\ getDirection 400 = Undef.
Proof.
  split; [lia |]. apply (getDirection_past_table 400). lia.
Defined.

(** ** Heading to direction *)

(** Whenever the integral part of the float heading fits an [int],
    [getAzimuth] returns, and [getDirection] of the value it returns stays
    inside the table and writes one of its sixteen names. *)
Theorem azimuth_direction_in_table (int_bits dprec demax : Z)
  (atan2 : Z -> Z -> spec_float) (PI : spec_float) (x y : Z)
  (declination : spec_float) (h : Z) :
  Binary32.trunc (Binary32.heading dprec demax atan2 PI x y declination)
    = Some h ->
  - 2 ^ (int_bits - 1) <= h < 2 ^ (int_bits - 1) ->
  exists r name,
    Binary32.getAzimuth int_bits dprec demax atan2 PI x y declination = Ok r /\
    -360 < r < 360 /\
    getDirection r = Ok name /\ In name _bearings.
Proof.
  intros Ht Hfit.
  pose proof (getAzimuth_fits int_bits dprec demax atan2 PI x y declination h
                Ht Hfit) as Ha.
  set (r := Z.rem h 360) in *.
  assert (Hr : -360 < r < 360) by apply rem_360_range.
  destruct (getBearing_in_table r Hr) as (s & Hs & Hrange).
  destruct (nth_error _bearings (Z.to_nat s)) as [name |] eqn:E.
  - exists r, name. repeat split; try lia; try assumption.
    + unfold getDirection. rewrite Hs. simpl. rewrite E. reflexivity.
    + eapply nth_error_In. exact E.
  - apply nth_error_None in E.
    change (List.length _bearings) with 16%nat in E. lia.
Qed.

Lemma azimuth_direction_in_table_witness :
  exists r name,
    Binary32.getAzimuth 32 53 1024 (fun _ _ => minus_quarter_pi_double)
      pi_double 100 (-100) (Binary32.setMagneticDeclination (-19) 43) = Ok r /\
    -360 < r < 360 /\
    getDirection r = Ok name /\ In name _bearings.
Proof.
  apply (azimuth_direction_in_table 32 53 1024
           (fun _ _ => minus_quarter_pi_double) pi_double 100 (-100)
           (Binary32.setMagneticDeclination (-19) 43) (-63)).
  - vm_compute. reflexivity.
  - vm_compute. split; [discriminate | reflexivity].
Defined.

(** ** Decoding a sample *)

Lemma int16_range (v : Z) : -32768 <= int16 v < 32768.
Proof.
  unfold int16.
  pose proof (Z.mod_pos_bound (v + 32768) 65536 ltac:(lia)). lia.
Qed.

Lemma int16_mod (v : Z) : -32768 <= v < 32768 -> int16 (v mod 65536) = v.
Proof.
  intro H. unfold int16.
  rewrite Z.add_mod_idemp_l by lia.
  rewrite Z.mod_small by lia. lia.
Qed.

(** A low byte and a shifted high byte have no bit in common, so the
    bitwise or is their sum. *)
Lemma lor_shiftl_8 (lo hi : Z) :
  0 <= lo < 256 -> Z.lor lo (Z.shiftl hi 8) = lo + 256 * hi.
Proof.
  intro Hlo.
  assert (Hand : Z.land lo (Z.shiftl hi 8) = 0).
  { apply Z.bits_inj'. intros n Hn.
    rewrite Z.land_spec, Z.bits_0.
    destruct (Z_lt_le_dec n 8) as [Hlt | Hge].
    - rewrite Z.shiftl_spec_low by lia. apply andb_false_r.
    - replace lo with (lo mod 2 ^ 8) by (apply Z.mod_small; simpl; lia).
      rewrite Z.mod_pow2_bits_high by lia. reflexivity. }
  rewrite <- Z.lxor_lor by exact Hand.
  rewrite <- Z.add_nocarry_lxor by exact Hand.
  rewrite Z.shiftl_mul_pow2 by lia.
  change (2 ^ 8) with 256. lia.
Qed.

Lemma read_axis_bytes (lo hi : Z) (rest : list Z) :
  0 <= lo < 256 ->
  read_axis (lo :: hi :: rest) = (int16 (lo + 256 * hi), rest).
Proof.
  intro Hlo. unfold read_axis, wire_read.
  rewrite lor_shiftl_8 by exact Hlo. reflexivity.
Qed.

(** The axis value is the 16-bit two's complement number whose low byte is
    the value the left call returned and whose high byte is the value the
    shifted call returned: [left + 256 * right] when [right] is below 128,
    and 65536 less otherwise. *)
Theorem read_axis_combines_operands (left right : Z) (rest : list Z) :
  0 <= left < 256 -> 0 <= right < 256 ->
  read_axis (left :: right :: rest)
    = (if right <? 128 then left + 256 * right
       else left + 256 * right - 65536, rest).
Proof.
  intros Hlo Hhi. rewrite read_axis_bytes by exact Hlo.
  f_equal. unfold int16.
  destruct (right <? 128) eqn:E.
  - apply Z.ltb_lt in E. rewrite Z.mod_small by lia. lia.
  - apply Z.ltb_ge in E.
    replace (left + 256 * right + 32768)
      with (left + 256 * right - 32768 + 1 * 65536) by lia.
    rewrite Z.mod_add by lia. rewrite Z.mod_small by lia. lia.
Qed.

Lemma read_axis_combines_operands_witness :
  (0 <= 251 < 256) /\ (0 <= 255 < 256) /\
  read_axis [251; 255; 7] = (-5, [7]).
Proof.
  split; [lia |]. split; [lia |].
  apply (read_axis_combines_operands 251 255 [7]); lia.
Defined.

(** Every 16-bit value is read back unchanged when the left call returns
    its low byte and the shifted call its high byte. *)
Theorem read_axis_round_trip (v : Z) (rest : list Z) :
  -32768 <= v < 32768 ->
  read_axis (bytes_of_int16 v ++ rest) = (v, rest).
Proof.
  intro Hv. unfold bytes_of_int16. cbn [app].
  rewrite read_axis_bytes by (apply Z.mod_pos_bound; lia).
  f_equal.
  replace (v mod 256 + 256 * ((v / 256) mod 256)) with (v mod 65536).
  - apply int16_mod. exact Hv.
  - change 65536 with (256 * 256). apply Z.rem_mul_r; lia.
Qed.

Lemma read_axis_round_trip_witness :
  (-32768 <= -1234 < 32768) /\
  read_axis (bytes_of_int16 (-1234) ++ [9]) = (-1234, [9]).
Proof.
  split; [lia |]. apply (read_axis_round_trip (-1234) [9]). lia.
Defined.

(** ** Reading through a plain driver *)

Lemma decode_sample_range (buf : list Z) :
  let s := decode_sample buf in
  -32768 <= v0 s < 32768 /\ -32768 <= v1 s < 32768 /\ -32768 <= v2 s < 32768.
Proof.
  unfold decode_sample, read_axis.
  destruct (wire_read buf) as [l0 b0]. destruct (wire_read b0) as [h0 b1].
  destruct (wire_read b1) as [l1 b2]. destruct (wire_read b2) as [h1 b3].
  destruct (wire_read b3) as [l2 b4]. destruct (wire_read b4) as [h2 b5].
  simpl. repeat split; apply int16_range.
Qed.

Lemma applyCalibration_identity (c : compass) :
  identity_calibrated c ->
  _applyCalibration c = Ok (set_vCalibrated (_vRaw c) c).
Proof.
  intros [Ho Hs]. unfold _applyCalibration. rewrite Ho, Hs.
  simpl vget. rewrite !identity_calibration. simpl.
  destruct (_vRaw c). reflexivity.
Qed.

(** With the identity calibration, smoothing and auto-calibration off (as
    in a new driver), a [read] whose transmission succeeds and whose six
    calls of [wire->read()] each get a byte returns, reports no new
    extremum, and the three accessors return the sample decoded from those
    bytes (for each axis: the left call's byte as low byte, the shifted
    call's byte as high byte). *)
Theorem read_plain_returns_sample (bus : bus_reply) (c : compass) :
  tx_err bus = 0 -> six_bytes bus ->
  _autoCalibrate c = false -> _smoothUse c = false ->
  identity_calibrated c ->
  let s := decode_sample (rx bus) in
  exists c',
    read bus c = Ok (c', false) /\
    _vRaw c' = s /\ _vCalibrated c' = s /\
    getX c' = v0 s /\ getY c' = v1 s /\ getZ c' = v2 s /\
    same_smoothing c c' /\ same_extrema c c' /\ same_calibration c c'.
Proof.
  intros Herr _ Hauto Hsm Hid s.
  exists (set_vCalibrated s (set_vRaw s c)).
  assert (Hread : read bus c = Ok (set_vCalibrated s (set_vRaw s c), false)).
  { unfold read. rewrite Herr, Hauto. cbn [Z.eqb].
    subst s. unfold decode_sample.
    destruct (read_axis (rx bus)) as [x b0].
    destruct (read_axis b0) as [y b1].
    destruct (read_axis b1) as [z b2].
    rewrite applyCalibration_identity
      by (destruct Hid; destruct c; split; assumption).
    cbn [bind].
    replace (_smoothUse (set_vCalibrated (_vRaw (set_vRaw (V3 x y z) c))
                           (set_vRaw (V3 x y z) c))) with false
      by (destruct c; symmetry; exact Hsm).
    cbn [bind]. destruct c; reflexivity. }
  split; [exact Hread |].
  unfold getX, getY, getZ, _get.
  replace (_smoothUse (set_vCalibrated s (set_vRaw s c))) with false
    by (destruct c; symmetry; exact Hsm).
  destruct c; repeat split.
Qed.

Lemma read_plain_returns_sample_witness :
  six_bytes (reply_ok 251 255 16 39 0 128) /\
  exists c',
    read (reply_ok 251 255 16 39 0 128) QMC5883LCompass = Ok (c', false) /\
    _vRaw c' = V3 (-5) 10000 (-32768) /\
    _vCalibrated c' = V3 (-5) 10000 (-32768) /\
    getX c' = -5 /\ getY c' = 10000 /\ getZ c' = -32768 /\
    same_smoothing QMC5883LCompass c' /\ same_extrema QMC5883LCompass c' /\
    same_calibration QMC5883LCompass c'.
Proof.
  assert (H6 : six_bytes (reply_ok 251 255 16 39 0 128)).
  { split; [simpl; lia |]. repeat constructor; lia. }
  split; [exact H6 |].
  apply (read_plain_returns_sample (reply_ok 251 255 16 39 0 128)
           QMC5883LCompass).
  - reflexivity.
  - exact H6.
  - reflexivity.
  - reflexivity.
  - split; reflexivity.
Defined.

(** ** Tracking the extrema *)

Lemma track_spec (v lo hi : Z) (found : bool) :
  track v lo hi found
    = (Z.min lo v, Z.max hi v, found || (v <? lo) || (v >? hi)).
Proof.
  unfold track.
  destruct (v <? lo) eqn:E1; destruct (v >? hi) eqn:E2;
    rewrite ?Z.gtb_ltb in E2;
    try apply Z.ltb_lt in E1; try apply Z.ltb_ge in E1;
    try apply Z.ltb_lt in E2; try apply Z.ltb_ge in E2;
    rewrite ?orb_true_r, ?orb_false_r;
    repeat f_equal; lia.
Qed.

Lemma update_extrema_spec (x y z : Z) (c : compass) :
  update_extrema x y z c
    = (set_maxZ (Z.max (maxZ c) z) (set_minZ (Z.min (minZ c) z)
         (set_maxY (Z.max (maxY c) y) (set_minY (Z.min (minY c) y)
           (set_maxX (Z.max (maxX c) x) (set_minX (Z.min (minX c) x) c))))),
       (x <? minX c) || (x >? maxX c) || (y <? minY c) || (y >? maxY c)
       || (z <? minZ c) || (z >? maxZ c)).
Proof.
  unfold update_extrema. rewrite !track_spec. reflexivity.
Qed.

Lemma same_extrema_setCalibration (a b d e f g : Z) (c : compass) :
  same_extrema c (setCalibration a b d e f g c).
Proof. destruct c; repeat split. Qed.

Lemma applyCalibrationIfNecessary_eq (x y z : Z) (c : compass) :
  _applyCalibrationIfNecessary x y z c
    = ((if snd (update_extrema x y z c)
        then setCalibration
               (minX (fst (update_extrema x y z c)))
               (maxX (fst (update_extrema x y z c)))
               (minY (fst (update_extrema x y z c)))
               (maxY (fst (update_extrema x y z c)))
               (minZ (fst (update_extrema x y z c)))
               (maxZ (fst (update_extrema x y z c)))
               (fst (update_extrema x y z c))
        else fst (update_extrema x y z c)),
       snd (update_extrema x y z c)).
Proof.
  unfold _applyCalibrationIfNecessary.
  destruct (update_extrema x y z c) as [c1 found]. reflexivity.
Qed.

(** The auto-calibration step widens the extrema to contain the sample,
    never narrows them, and reports a new value exactly when the sample was
    outside them on some axis. *)
Theorem applyCalibrationIfNecessary_tracks (x y z : Z) (c : compass) :
  let c' := fst (_applyCalibrationIfNecessary x y z c) in
  let found := snd (_applyCalibrationIfNecessary x y z c) in
  minX c' = Z.min (minX c) x /\ maxX c' = Z.max (maxX c) x /\
  minY c' = Z.min (minY c) y /\ maxY c' = Z.max (maxY c) y /\
  minZ c' = Z.min (minZ c) z /\ maxZ c' = Z.max (maxZ c) z /\
  inside_extrema x y z c' /\
  (found = false <-> inside_extrema x y z c).
Proof.
  cbv zeta. rewrite applyCalibrationIfNecessary_eq, update_extrema_spec.
  cbn [fst snd].
  set (c1 := set_maxZ _ _).
  set (found := _ || _).
  assert (H1 : minX c1 = Z.min (minX c) x /\ maxX c1 = Z.max (maxX c) x /\
               minY c1 = Z.min (minY c) y /\ maxY c1 = Z.max (maxY c) y /\
               minZ c1 = Z.min (minZ c) z /\ maxZ c1 = Z.max (maxZ c) z)
    by (subst c1; destruct c; repeat split).
  assert (H2 : same_extrema c1
                 (if found
                  then setCalibration (minX c1) (maxX c1) (minY c1) (maxY c1)
                         (minZ c1) (maxZ c1) c1
                  else c1)).
  { destruct found; [apply same_extrema_setCalibration |].
    repeat split. }
  cbn [fst snd].
  set (c2 := if found then _ else c1) in *.
  destruct H1 as (A1 & A2 & A3 & A4 & A5 & A6).
  destruct H2 as (B1 & B2 & B3 & B4 & B5 & B6).
  unfold inside_extrema.
  rewrite <- B1, <- B2, <- B3, <- B4, <- B5, <- B6.
  rewrite A1, A2, A3, A4, A5, A6.
  do 6 (split; [reflexivity |]).
  split; [lia |].
  subst found. rewrite !orb_false_iff, !Z.gtb_ltb, !Z.ltb_ge. lia.
Qed.

(** A sample inside the extrema changes nothing: no extremum moves and the
    calibration is not recomputed. *)
Theorem applyCalibrationIfNecessary_inside (x y z : Z) (c : compass) :
  inside_extrema x y z c ->
  _applyCalibrationIfNecessary x y z c = (c, false).
Proof.
  intros (Hx & Hy & Hz).
  rewrite applyCalibrationIfNecessary_eq, update_extrema_spec.
  cbn [fst snd].
  replace ((x <? minX c) || (x >? maxX c) || (y <? minY c) || (y >? maxY c)
           || (z <? minZ c) || (z >? maxZ c)) with false.
  - rewrite !Z.min_l, !Z.max_l by lia. destruct c; reflexivity.
  - symmetry. rewrite !orb_false_iff, !Z.gtb_ltb, !Z.ltb_ge. lia.
Qed.

Lemma applyCalibrationIfNecessary_inside_witness :
  inside_extrema 5 (-3) 0
    (set_maxZ 10 (set_minZ (-10) (set_maxY 10 (set_minY (-10)
       (set_maxX 10 (set_minX (-10) QMC5883LCompass)))))) /\
  _applyCalibrationIfNecessary 5 (-3) 0
    (set_maxZ 10 (set_minZ (-10) (set_maxY 10 (set_minY (-10)
       (set_maxX 10 (set_minX (-10) QMC5883LCompass))))))
  = (set_maxZ 10 (set_minZ (-10) (set_maxY 10 (set_minY (-10)
       (set_maxX 10 (set_minX (-10) QMC5883LCompass))))), false).
Proof.
  split.
  - unfold inside_extrema. simpl. lia.
  - apply (applyCalibrationIfNecessary_inside 5 (-3) 0).
    unfold inside_extrema. simpl. lia.
Defined.

(** A sample outside the extrema on some axis makes the step recompute the
    calibration from the widened extrema. *)
Theorem applyCalibrationIfNecessary_outside (x y z : Z) (c : compass) :
  ~ inside_extrema x y z c ->
  let c1 := fst (update_extrema x y z c) in
  _applyCalibrationIfNecessary x y z c
    = (setCalibration (minX c1) (maxX c1) (minY c1) (maxY c1)
         (minZ c1) (maxZ c1) c1, true).
Proof.
  intros Hout c1. subst c1.
  rewrite applyCalibrationIfNecessary_eq, update_extrema_spec.
  cbn [fst snd].
  replace ((x <? minX c) || (x >? maxX c) || (y <? minY c) || (y >? maxY c)
           || (z <? minZ c) || (z >? maxZ c)) with true; [reflexivity |].
  symmetry. apply not_false_is_true. intro F. apply Hout.
  revert F. unfold inside_extrema.
  rewrite !orb_false_iff, !Z.gtb_ltb, !Z.ltb_ge. lia.
Qed.

Lemma applyCalibrationIfNecessary_outside_witness :
  ~ inside_extrema 7 8 9 QMC5883LCompass /\
  _applyCalibrationIfNecessary 7 8 9 QMC5883LCompass
    = (setCalibration 7 7 8 8 9 9
         (fst (update_extrema 7 8 9 QMC5883LCompass)), true).
Proof.
  split.
  - unfold inside_extrema. simpl. lia.
  - apply (applyCalibrationIfNecessary_outside 7 8 9 QMC5883LCompass).
    unfold inside_extrema. simpl. lia.
Defined.

(** ** One axis of one smoothing step, field by field *)

Lemma vget_vset_same {A : Type} (i : axis) (a : A) (v : vec3 A) :
  vget i (vset i a v) = a.
Proof. destruct i; reflexivity. Qed.

Lemma vget_vset_other {A : Type} (i j : axis) (a : A) (v : vec3 A) :
  i <> j -> vget i (vset j a v) = vget i v.
Proof. destruct i, j; intro H; try reflexivity; contradiction. Qed.

Lemma nth_set_row_other_axis (i j : axis) (v : Z) (h : list (vec3 Z)) :
  i <> j ->
  forall n k : nat,
    vget i (nth n (set_row h k (vset j v)) zero3) = vget i (nth n h zero3).
Proof.
  intro Hij. induction h as [| r h IH]; intros n k; [reflexivity |].
  destruct k as [| k]; destruct n as [| n]; simpl; try reflexivity.
  - apply vget_vset_other. exact Hij.
  - apply IH.
Qed.

Lemma sum_set_row_other_axis (i j : axis) (v : Z) (h : list (vec3 Z)) :
  i <> j ->
  forall n k : nat,
    fold_right Z.add 0 (map (vget i) (firstn n (set_row h k (vset j v))))
      = fold_right Z.add 0 (map (vget i) (firstn n h)).
Proof.
  intro Hij. induction h as [| r h IH]; intros n k; [reflexivity |].
  destruct n as [| n]; [destruct k; reflexivity |].
  destruct k as [| k]; simpl.
  - rewrite vget_vset_other by exact Hij. reflexivity.
  - rewrite IH. reflexivity.
Qed.

(** What [smooth_axis] stores, whenever it returns. *)
Lemma smooth_axis_fields (i : axis) (c c' : compass) :
  smooth_axis i c = Ok c' ->
  let h := set_cell (_vHistory c) (_vScan c) i (vget i (_vCalibrated c)) in
  let tot :=
    (if negb (vget i (_vTotals c) =? 0)
     then vget i (_vTotals c) - cell (_vHistory c) (_vScan c) i
     else vget i (_vTotals c)) + cell h (_vScan c) i in
  _vHistory c' = h /\
  _vTotals c' = vset i tot (_vTotals c) /\
  _vScan c' = _vScan c /\
  (exists s,
     _vSmooth c' = vset i s (_vSmooth c) /\
     round_to_int
       (if _smoothAdvanced c
        then fdiv (fsub (of_int tot)
                     (fadd (of_int (cell h (scan_max h i (_smoothSteps c - 1)) i))
                           (of_int (cell h (scan_min h i (_smoothSteps c - 1)) i))))
                  (fsub (of_int (_smoothSteps c)) (of_int 2))
        else fdiv (of_int tot) (of_int (_smoothSteps c))) = Ok s) /\
  same_samples c c' /\ same_extrema c c' /\ same_calibration c c' /\
  keeps_settings c c'.
Proof.
  intros H h tot. pose proof (keeps_smooth_axis i c c' H) as K.
  unfold smooth_axis in H.
  replace (_smoothAdvanced
             (set_vTotals _ (set_vHistory _ c))) with (_smoothAdvanced c) in H
    by (destruct c; reflexivity).
  replace (_smoothSteps
             (set_vTotals _ (set_vHistory _ c))) with (_smoothSteps c) in H
    by (destruct c; reflexivity).
  fold h in H. fold tot in H.
  destruct (_smoothAdvanced c);
    apply bind_Ok in H as (s & Hs & H); injection H as <-;
    (split; [destruct c; reflexivity |]);
    (split; [destruct c; reflexivity |]);
    (split; [destruct c; reflexivity |]);
    (split; [exists s; split; [destruct c; reflexivity | exact Hs] |]);
    (split; [destruct c; split; reflexivity |]);
    (split; [destruct c; repeat split |]);
    (split; [destruct c; split; reflexivity | exact K]).
Qed.

Lemma round_to_int_fdiv (n d : Z) :
  d <> 0 -> exists s, round_to_int (fdiv (of_int n) (of_int d)) = Ok s.
Proof.
  intro Hd. unfold of_int. rewrite fdiv_Fin.
  - eexists. reflexivity.
  - intro E. apply Hd. unfold Qeq in E. simpl in E. lia.
Qed.

(** A smoothing step returns as soon as its divisor is not zero: a step
    count other than 0 in basic mode, other than 2 in advanced mode. *)
Lemma smooth_axis_returns (i : axis) (c : compass) :
  (if _smoothAdvanced c then _smoothSteps c <> 2 else _smoothSteps c <> 0) ->
  exists c', smooth_axis i c = Ok c'.
Proof.
  intro Hd. unfold smooth_axis.
  replace (_smoothAdvanced
             (set_vTotals _ (set_vHistory _ c))) with (_smoothAdvanced c)
    by (destruct c; reflexivity).
  replace (_smoothSteps
             (set_vTotals _ (set_vHistory _ c))) with (_smoothSteps c)
    by (destruct c; reflexivity).
  destruct (_smoothAdvanced c).
  - unfold of_int, fadd, fsub. rewrite fdiv_Fin.
    + eexists. reflexivity.
    + intro E. apply Hd. unfold Qeq in E. simpl in E. lia.
  - destruct (round_to_int_fdiv
                ((if negb (vget i (_vTotals c) =? 0)
                  then vget i (_vTotals c) - cell (_vHistory c) (_vScan c) i
                  else vget i (_vTotals c))
                 + cell (set_cell (_vHistory c) (_vScan c) i
                           (vget i (_vCalibrated c))) (_vScan c) i)
                (_smoothSteps c) Hd) as [s Hs].
    rewrite Hs. eexists. reflexivity.
Qed.

(** ** Step counts that divide by zero *)

Lemma smooth_axis_zero_divisor (i : axis) (c : compass) :
  (if _smoothAdvanced c then _smoothSteps c = 2 else _smoothSteps c = 0) ->
  smooth_axis i c = Undef.
Proof.
  intro Hd. unfold smooth_axis.
  replace (_smoothAdvanced
             (set_vTotals _ (set_vHistory _ c))) with (_smoothAdvanced c)
    by (destruct c; reflexivity).
  replace (_smoothSteps
             (set_vTotals _ (set_vHistory _ c))) with (_smoothSteps c)
    by (destruct c; reflexivity).
  destruct (_smoothAdvanced c); rewrite Hd; reflexivity.
Qed.

Lemma smoothing_zero_divisor (c : compass) :
  (if _smoothAdvanced c then _smoothSteps c = 2 else _smoothSteps c = 0) ->
  _smoothing c = Undef.
Proof.
  intro Hd. unfold _smoothing.
  rewrite smooth_axis_zero_divisor; [reflexivity |].
  destruct (_vScan c >? _smoothSteps c - 1); [| exact Hd].
  destruct c; exact Hd.
Qed.

Lemma applyCalibration_cases (c : compass) :
  _applyCalibration c = Undef \/ exists c', _applyCalibration c = Ok c'.
Proof.
  unfold _applyCalibration.
  destruct (fmul (fsub (of_int (vget Ax0 (_vRaw c))) (vget Ax0 (_offset c)))
              (vget Ax0 (_scale c))); [| left; reflexivity].
  destruct (fmul (fsub (of_int (vget Ax1 (_vRaw c))) (vget Ax1 (_offset c)))
              (vget Ax1 (_scale c))); [| left; reflexivity].
  destruct (fmul (fsub (of_int (vget Ax2 (_vRaw c))) (vget Ax2 (_offset c)))
              (vget Ax2 (_scale c))); [| left; reflexivity].
  right. eexists. reflexivity.
Qed.

(** After [setSmoothing(2, true)] or [setSmoothing(0, false)] the average
    divides by zero: every [read] whose transmission succeeds then ends in
    the conversion of a non-finite value to [int], which is undefined. *)
Theorem read_undefined_after_zero_divisor (bus : bus_reply) (adv : bool)
  (c : compass) :
  tx_err bus = 0 ->
  read bus (setSmoothing (if adv then 2 else 0) adv c) = Undef.
Proof.
  intro Herr.
  set (c0 := setSmoothing (if adv then 2 else 0) adv c).
  assert (H0 : _smoothUse c0 = true /\
               (if _smoothAdvanced c0 then _smoothSteps c0 = 2
                else _smoothSteps c0 = 0)).
  { subst c0. destruct c, adv; split; reflexivity. }
  clearbody c0. destruct H0 as [Huse Hdiv].
  unfold read. rewrite Herr. cbn [Z.eqb].
  destruct (read_axis (rx bus)) as [x b0].
  destruct (read_axis b0) as [y b1].
  destruct (read_axis b1) as [z b2].
  assert (Hc : exists c1 f1,
             (if _autoCalibrate c0 then _applyCalibrationIfNecessary x y z c0
              else (c0, false)) = (c1, f1) /\ keeps_settings c0 c1).
  { destruct (_autoCalibrate c0).
    - pose proof (keeps_applyCalibrationIfNecessary x y z c0) as K.
      destruct (_applyCalibrationIfNecessary x y z c0) as [c1 f1].
      exists c1, f1. split; [reflexivity | exact K].
    - exists c0, false. split; [reflexivity | apply keeps_settings_refl]. }
  destruct Hc as (c1 & f1 & E & K1). rewrite E.
  destruct (applyCalibration_cases (set_vRaw (V3 x y z) c1)) as [U | [c2 O]].
  - rewrite U. reflexivity.
  - rewrite O. cbn [bind].
    pose proof (keeps_applyCalibration _ _ O) as K2.
    assert (K : keeps_settings c0 c2).
    { eapply keeps_settings_trans; [exact K1 |].
      eapply keeps_settings_trans; [| exact K2]. destruct c1; repeat split. }
    destruct K as (E1 & E2 & E3 & _).
    rewrite <- E1, Huse.
    rewrite smoothing_zero_divisor; [reflexivity |].
    rewrite <- E3, <- E2. exact Hdiv.
Qed.

Lemma read_undefined_after_zero_divisor_witness :
  tx_err (reply_ok 1 0 2 0 3 0) = 0 /\
  read (reply_ok 1 0 2 0 3 0) (setSmoothing 2 true QMC5883LCompass) = Undef.
Proof.
  split; [reflexivity |].
  apply (read_undefined_after_zero_divisor (reply_ok 1 0 2 0 3 0) true
           QMC5883LCompass).
  reflexivity.
Defined.

(** ** Basic smoothing over one step *)

Lemma round_to_int_over_one (n : Z) :
  round_to_int (fdiv (of_int n) (of_int 1)) = Ok n.
Proof.
  unfold of_int. rewrite fdiv_Fin by discriminate.
  unfold round_to_int. f_equal.
  rewrite <- (Qround_away_inject_Z n) at 2.
  apply Qround_away_comp. field.
Qed.

Lemma one_step_axis (i : axis) (c : compass) :
  _smoothSteps c = 1 -> _smoothAdvanced c = false -> _vScan c = 0 ->
  (1 <= List.length (_vHistory c))%nat ->
  vget i (_vTotals c) = cell (_vHistory c) 0 i ->
  exists c',
    smooth_axis i c = Ok c' /\
    _vHistory c' = set_cell (_vHistory c) 0 i (vget i (_vCalibrated c)) /\
    _vTotals c' = vset i (vget i (_vCalibrated c)) (_vTotals c) /\
    _vSmooth c' = vset i (vget i (_vCalibrated c)) (_vSmooth c) /\
    _vScan c' = 0 /\ _vCalibrated c' = _vCalibrated c /\
    _smoothSteps c' = 1 /\ _smoothAdvanced c' = false.
Proof.
  intros Hsteps Hadv Hscan Hlen Htot.
  destruct (smooth_axis_returns i c) as [c' Hc'].
  { rewrite Hadv, Hsteps. discriminate. }
  exists c'. split; [exact Hc' |].
  pose proof (smooth_axis_fields i c c' Hc') as F. cbv zeta in F.
  rewrite Hscan, Hadv, Hsteps in F.
  destruct F as (Fh & Ft & Fs & (s & Fsm & Fr) & (_ & Fc) & _ & _ & K).
  assert (Hcell : cell (set_cell (_vHistory c) 0 i (vget i (_vCalibrated c)))
                    0 i = vget i (_vCalibrated c)).
  { unfold cell, set_cell. apply nth_set_row_same. simpl. lia. }
  rewrite Hcell in Ft, Fr.
  assert (Hsum : (if negb (vget i (_vTotals c) =? 0)
                  then vget i (_vTotals c) - cell (_vHistory c) 0 i
                  else vget i (_vTotals c)) + vget i (_vCalibrated c)
                 = vget i (_vCalibrated c)).
  { destruct (vget i (_vTotals c) =? 0) eqn:E; simpl.
    - apply Z.eqb_eq in E. lia.
    - lia. }
  rewrite Hsum in Ft, Fr.
  rewrite round_to_int_over_one in Fr. injection Fr as <-.
  destruct K as (_ & K2 & K3 & _).
  repeat split; try assumption; congruence.
Qed.

(** One step of basic smoothing over a single entry hands the calibrated
    sample through unchanged and leaves the engine ready for the next. *)
Lemma smoothing_one_step (c : compass) :
  one_step_ready c ->
  exists c',
    _smoothing c = Ok c' /\ _vSmooth c' = _vCalibrated c /\
    _vCalibrated c' = _vCalibrated c /\ one_step_ready c'.
Proof.
  intros (Hsteps & Hadv & Hscan & Hlen & Htot).
  unfold _smoothing.
  set (c0 := if _vScan c >? _smoothSteps c - 1 then set_vScan 0 c else c).
  assert (H0 : _smoothSteps c0 = 1 /\ _smoothAdvanced c0 = false /\
               _vScan c0 = 0 /\ _vHistory c0 = _vHistory c /\
               _vTotals c0 = _vTotals c /\ _vCalibrated c0 = _vCalibrated c /\
               _vSmooth c0 = _vSmooth c).
  { subst c0. rewrite Hsteps. destruct (_vScan c >? 1 - 1) eqn:G.
    - destruct c; repeat split; assumption.
    - rewrite Z.gtb_ltb in G. apply Z.ltb_ge in G.
      repeat split; try assumption; lia. }
  clearbody c0. destruct H0 as (S0 & A0 & P0 & Hh0 & Ht0 & Hc0 & Hs0).
  destruct (_vHistory c) as [| r t] eqn:Eh; [simpl in Hlen; lia |].
  destruct (one_step_axis Ax0 c0) as (c1 & R1 & Hh1 & Ht1 & Hs1 & P1 & Hc1 & S1 & A1);
    try assumption.
  { rewrite Hh0. simpl. lia. }
  { rewrite Ht0, Hh0. apply Htot. }
  rewrite Hh0, Ht0, Hc0, Hs0 in *.
  destruct (one_step_axis Ax1 c1) as (c2 & R2 & Hh2 & Ht2 & Hs2 & P2 & Hc2 & S2 & A2);
    try assumption.
  { rewrite Hh1. simpl. lia. }
  { rewrite Ht1, Hh1. specialize (Htot Ax1). exact Htot. }
  rewrite Hh1, Ht1, Hc1, Hs1 in *.
  destruct (one_step_axis Ax2 c2) as (c3 & R3 & Hh3 & Ht3 & Hs3 & P3 & Hc3 & S3 & A3);
    try assumption.
  { rewrite Hh2. simpl. lia. }
  { rewrite Ht2, Hh2. specialize (Htot Ax2). exact Htot. }
  rewrite Hh2, Ht2, Hc2, Hs2 in *.
  rewrite R1. cbn [bind]. rewrite R2. cbn [bind]. rewrite R3. cbn [bind].
  eexists. split; [reflexivity |].
  assert (F : _vSmooth (set_vScan (_vScan c3 + 1) c3) = _vSmooth c3 /\
              _vCalibrated (set_vScan (_vScan c3 + 1) c3) = _vCalibrated c3 /\
              _smoothSteps (set_vScan (_vScan c3 + 1) c3) = _smoothSteps c3 /\
              _smoothAdvanced (set_vScan (_vScan c3 + 1) c3) = _smoothAdvanced c3 /\
              _vScan (set_vScan (_vScan c3 + 1) c3) = _vScan c3 + 1 /\
              _vHistory (set_vScan (_vScan c3 + 1) c3) = _vHistory c3 /\
              _vTotals (set_vScan (_vScan c3 + 1) c3) = _vTotals c3)
    by (destruct c3; repeat split).
  destruct F as (F1 & F2 & F3 & F4 & F5 & F6 & F7).
  unfold one_step_ready.
  rewrite F1, F2, F3, F4, F5, F6, F7, Hs3, Hc3, Hh3, Ht3, P3.
  destruct (_vCalibrated c) as [x y z]. simpl.
  repeat split; try assumption; try lia.
Qed.

Lemma one_step_ready_fresh :
  one_step_ready (setSmoothing 1 false QMC5883LCompass).
Proof.
  unfold one_step_ready. simpl. repeat split; try lia.
Qed.

Lemma feed_one_step (s : vec3 Z) (c : compass) :
  one_step_ready c ->
  exists c', feed s c = Ok c' /\ _vSmooth c' = s /\ one_step_ready c'.
Proof.
  intro H. unfold feed.
  assert (H' : one_step_ready (set_vCalibrated s c)).
  { destruct H as (A & B & C & D & E). destruct c.
    unfold one_step_ready. simpl in *. repeat split; assumption. }
  destruct (smoothing_one_step _ H') as (c' & R & Hs & _ & Hr).
  exists c'. split; [exact R |]. split; [| exact Hr].
  rewrite Hs. destruct c; reflexivity.
Qed.

(** With [setSmoothing(1, false)] on a new driver, whatever samples came
    before, the smoothed sample is always the last calibrated sample. *)
Theorem basic_one_step_follows_input (samples : list (vec3 Z)) (s : vec3 Z) :
  exists c',
    feed_all (samples ++ [s]) (setSmoothing 1 false QMC5883LCompass) = Ok c' /\
    _vSmooth c' = s.
Proof.
  assert (G : forall c, one_step_ready c ->
                exists c', feed_all (samples ++ [s]) c = Ok c' /\
                           _vSmooth c' = s).
  { induction samples as [| a samples IH]; intros c Hc.
    - destruct (feed_one_step s c Hc) as (c' & R & Hs & _).
      exists c'. simpl. rewrite R. split; [reflexivity | exact Hs].
    - destruct (feed_one_step a c Hc) as (c1 & R & _ & Hr).
      destruct (IH c1 Hr) as (c' & R' & Hs).
      exists c'. simpl. rewrite R. split; [exact R' | exact Hs]. }
  apply G, one_step_ready_fresh.
Qed.

(** ** Totals over non-negative samples *)

Lemma axis_eq_dec (i j : axis) : {i = j} + {i <> j}.
Proof. decide equality. Qed.

Lemma sum_rows_nonneg (i : axis) (h : list (vec3 Z)) :
  rows_nonneg h ->
  forall n : nat, 0 <= fold_right Z.add 0 (map (vget i) (firstn n h)).
Proof.
  intro H. induction H as [| r h (R0 & R1 & R2) _ IH]; intro n.
  - destruct n; simpl; lia.
  - destruct n as [| n]; simpl; [lia |].
    specialize (IH n). destruct i; simpl; lia.
Qed.

(** A zero sum of non-negative entries has only zero entries. *)
Lemma zero_sum_zero_entry (i : axis) (h : list (vec3 Z)) :
  rows_nonneg h ->
  forall n k : nat,
    (k < n)%nat -> (k < List.length h)%nat ->
    fold_right Z.add 0 (map (vget i) (firstn n h)) = 0 ->
    vget i (nth k h zero3) = 0.
Proof.
  intro H. induction H as [| r h (R0 & R1 & R2) Hh IH]; intros n k Hn Hk Hs.
  - simpl in Hk. lia.
  - destruct n as [| n]; [lia |]. simpl in Hs.
    pose proof (sum_rows_nonneg i h Hh n) as Hpos.
    assert (Hr : 0 <= vget i r) by (destruct i; assumption).
    destruct k as [| k]; simpl.
    + lia.
    + apply (IH n k); simpl in Hk; lia.
Qed.

Lemma rows_nonneg_set_row (i : axis) (v : Z) (h : list (vec3 Z)) :
  rows_nonneg h -> 0 <= v ->
  forall k : nat, rows_nonneg (set_row h k (vset i v)).
Proof.
  intros H Hv. induction H as [| r h (R0 & R1 & R2) Hh IH]; intro k.
  - constructor.
  - destruct k as [| k]; simpl.
    + constructor; [| exact Hh]. destruct i; simpl; repeat split; assumption.
    + constructor; [repeat split; assumption | apply IH].
Qed.

Lemma nonneg_axis (i : axis) (c : compass) :
  nonneg_ready c -> _vScan c < _smoothSteps c ->
  0 <= vget i (_vCalibrated c) ->
  exists c',
    smooth_axis i c = Ok c' /\ nonneg_ready c' /\
    _vScan c' = _vScan c /\ _vCalibrated c' = _vCalibrated c.
Proof.
  intros (Hsteps & Hdiv & Hscan & Hlen & Hrows & Hsums) Hslot Hcal.
  destruct (smooth_axis_returns i c Hdiv) as [c' Hc'].
  exists c'. split; [exact Hc' |].
  pose proof (smooth_axis_fields i c c' Hc') as F. cbv zeta in F.
  destruct F as (Fh & Ft & Fs & _ & (_ & Fc) & _ & _ & K).
  destruct K as (_ & K2 & K3 & _).
  assert (Hi : vget i (_vTotals c')
               = ring_sum (_smoothSteps c) i (_vHistory c')).
  { apply (smooth_axis_keeps_sum i c c'); try assumption; try lia.
    - apply Hsums.
    - destruct (Z.eq_dec (vget i (_vTotals c)) 0) as [E | E];
        [right | left; exact E].
      unfold cell. apply (zero_sum_zero_entry i _ Hrows
                            (Z.to_nat (_smoothSteps c))); try lia.
      pose proof (Hsums i) as Hi0. unfold ring_sum in Hi0.
      rewrite <- Hi0. exact E. }
  repeat split; try congruence; try lia.
  - rewrite <- K3, <- K2. exact Hdiv.
  - rewrite Fh. unfold set_cell. rewrite length_set_row. exact Hlen.
  - rewrite Fh. unfold set_cell. apply rows_nonneg_set_row; assumption.
  - intro j. rewrite <- K2.
    destruct (axis_eq_dec j i) as [-> | Hji]; [exact Hi |].
    rewrite Ft, Fh, vget_vset_other by exact Hji.
    unfold ring_sum, set_cell.
    rewrite sum_set_row_other_axis by exact Hji. apply Hsums.
Qed.

Lemma nonneg_smoothing (c : compass) :
  nonneg_ready c -> sample_nonneg (_vCalibrated c) ->
  exists c', _smoothing c = Ok c' /\ nonneg_ready c'.
Proof.
  intros Hr (S0 & S1 & S2).
  unfold _smoothing.
  set (c0 := if _vScan c >? _smoothSteps c - 1 then set_vScan 0 c else c).
  assert (H0 : nonneg_ready c0 /\ _vScan c0 < _smoothSteps c0 /\
               _vCalibrated c0 = _vCalibrated c).
  { subst c0. destruct Hr as (A & B & C & D & E & F).
    destruct (_vScan c >? _smoothSteps c - 1) eqn:G.
    - destruct c. unfold nonneg_ready, totals_are_sums in *. simpl in *.
      repeat split; try assumption; try lia.
    - rewrite Z.gtb_ltb in G. apply Z.ltb_ge in G.
      unfold nonneg_ready. repeat split; try assumption; lia. }
  clearbody c0. destruct H0 as (R0 & L0 & C0).
  destruct (nonneg_axis Ax0 c0 R0 L0) as (c1 & E1 & R1 & P1 & C1).
  { rewrite C0. exact S0. }
  assert (L1 : _vScan c1 < _smoothSteps c1).
  { destruct (keeps_smooth_axis _ _ _ E1) as (_ & K & _). lia. }
  destruct (nonneg_axis Ax1 c1 R1 L1) as (c2 & E2 & R2 & P2 & C2).
  { rewrite C1, C0. exact S1. }
  assert (L2 : _vScan c2 < _smoothSteps c2).
  { destruct (keeps_smooth_axis _ _ _ E2) as (_ & K & _). lia. }
  destruct (nonneg_axis Ax2 c2 R2 L2) as (c3 & E3 & R3 & P3 & C3).
  { rewrite C2, C1, C0. exact S2. }
  rewrite E1. cbn [bind]. rewrite E2. cbn [bind]. rewrite E3. cbn [bind].
  eexists. split; [reflexivity |].
  destruct R3 as (A & B & C & D & E & F).
  destruct c3. unfold nonneg_ready, totals_are_sums in *. simpl in *.
  repeat split; try assumption; try lia.
Qed.

Lemma nonneg_ready_fresh (steps : Z) (adv : bool) :
  1 <= steps <= 255 -> (adv = true -> steps <> 2) ->
  nonneg_ready (setSmoothing steps adv QMC5883LCompass).
Proof.
  intros Hs Ha.
  assert (Hm : steps mod 2 ^ byte_bits = steps)
    by (apply Z.mod_small; change (2 ^ byte_bits) with 256; lia).
  assert (Hc : 1 <= (if steps >? 10 then 10 else steps) <= 10).
  { destruct (steps >? 10) eqn:G; [lia |].
    rewrite Z.gtb_ltb in G. apply Z.ltb_ge in G. lia. }
  assert (Hd : if adv then (if steps >? 10 then 10 else steps) <> 2
               else (if steps >? 10 then 10 else steps) <> 0).
  { destruct adv.
    - destruct (steps >? 10); [lia | apply Ha; reflexivity].
    - lia. }
  unfold nonneg_ready, totals_are_sums, setSmoothing. rewrite Hm.
  cbn [_smoothSteps _smoothAdvanced _vScan _vHistory _vTotals
       set_smoothUse set_smoothSteps set_smoothAdvanced QMC5883LCompass].
  split; [exact Hc |].
  split; [destruct adv; exact Hd |].
  split; [lia |]. split; [reflexivity |].
  split.
  - repeat constructor; simpl; lia.
  - intro i. unfold ring_sum.
    assert (Z : forall n : nat,
               fold_right Z.add 0
                 (map (vget i) (firstn n (repeat zero3 10))) = 0).
    { intro n. do 11 (destruct n as [| n]; [destruct i; reflexivity |]).
      destruct i; reflexivity. }
    rewrite Z. destruct i; reflexivity.
Qed.

Lemma rows_at_most_set_row (b : Z) (i : axis) (v : Z) (h : list (vec3 Z)) :
  rows_at_most b h -> v <= b ->
  forall k : nat, rows_at_most b (set_row h k (vset i v)).
Proof.
  intros H Hv. induction H as [| r h (R0 & R1 & R2) Hh IH]; intro k.
  - constructor.
  - destruct k as [| k]; simpl.
    + constructor; [| exact Hh]. destruct i; simpl; repeat split; assumption.
    + constructor; [repeat split; assumption | apply IH].
Qed.

Lemma sum_rows_at_most (b : Z) (i : axis) (h : list (vec3 Z)) :
  0 <= b -> rows_at_most b h ->
  forall n : nat,
    fold_right Z.add 0 (map (vget i) (firstn n h))
      <= Z.of_nat (List.length h) * b.
Proof.
  intros Hb H. induction H as [| r h (R0 & R1 & R2) _ IH]; intro n.
  - destruct n; simpl; lia.
  - destruct n as [| n]; [simpl List.length; simpl fold_right; nia |].
    specialize (IH n). cbn [firstn map fold_right List.length].
    assert (Hr : vget i r <= b) by (destruct i; assumption).
    nia.
Qed.

Lemma rows_at_most_smoothing (b : Z) (c c' : compass) :
  _smoothing c = Ok c' ->
  rows_at_most b (_vHistory c) ->
  v0 (_vCalibrated c) <= b /\ v1 (_vCalibrated c) <= b /\
  v2 (_vCalibrated c) <= b ->
  rows_at_most b (_vHistory c').
Proof.
  unfold _smoothing. intros H Hrows (B0 & B1 & B2).
  set (c0 := if _vScan c >? _smoothSteps c - 1 then set_vScan 0 c else c) in H.
  assert (H0 : _vHistory c0 = _vHistory c /\ _vCalibrated c0 = _vCalibrated c).
  { subst c0. destruct (_vScan c >? _smoothSteps c - 1);
      destruct c; split; reflexivity. }
  clearbody c0. destruct H0 as [Hh0 Hc0].
  apply bind_Ok in H as (c1 & H1 & H).
  apply bind_Ok in H as (c2 & H2 & H).
  apply bind_Ok in H as (c3 & H3 & H).
  injection H as <-.
  apply smooth_axis_fields in H1, H2, H3. cbv zeta in H1, H2, H3.
  destruct H1 as (Fh1 & _ & _ & _ & (_ & S1) & _).
  destruct H2 as (Fh2 & _ & _ & _ & (_ & S2) & _).
  destruct H3 as (Fh3 & _ & _ & _ & (_ & S3) & _).
  replace (_vHistory (set_vScan (_vScan c3 + 1) c3)) with (_vHistory c3)
    by (destruct c3; reflexivity).
  rewrite Fh3, Fh2, Fh1, <- S2, <- S1, Hc0, Hh0.
  unfold set_cell. cbn [vget].
  repeat apply rows_at_most_set_row; assumption.
Qed.

(** When every calibrated sample is non-negative and fits a 16-bit [int]
    on the three axes, the zero-total guard never skips a needed
    subtraction: from a new driver, with a step count from 1 to 255 (and
    not 2 in advanced mode), every call returns, the totals are the sums of
    the entries held, and they stay within 0..327670, far inside a [long]. *)
Theorem totals_exact_on_nonneg_samples (steps : Z) (adv : bool)
  (samples : list (vec3 Z)) :
  1 <= steps <= 255 -> (adv = true -> steps <> 2) ->
  Forall sample_in_range samples ->
  exists c',
    feed_all samples (setSmoothing steps adv QMC5883LCompass) = Ok c' /\
    totals_are_sums c' /\
    forall i : axis, 0 <= vget i (_vTotals c') <= 327670.
Proof.
  intros Hs Ha Hall.
  assert (G : forall c, nonneg_ready c -> rows_at_most 32767 (_vHistory c) ->
                exists c', feed_all samples c = Ok c' /\ nonneg_ready c' /\
                           rows_at_most 32767 (_vHistory c')).
  { induction Hall as [| s samples Hsn _ IH]; intros c Hc Hr.
    - exists c. split; [reflexivity | split; assumption].
    - destruct Hsn as (S0 & S1 & S2).
      assert (Hc' : nonneg_ready (set_vCalibrated s c)).
      { destruct Hc as (A & B & C & D & E & F). destruct c.
        unfold nonneg_ready, totals_are_sums in *. simpl in *.
        repeat split; try assumption; try lia. }
      destruct (nonneg_smoothing (set_vCalibrated s c) Hc') as (c1 & R & Hr1).
      { destruct c; unfold sample_nonneg; simpl; lia. }
      assert (Hm : rows_at_most 32767 (_vHistory c1)).
      { apply (rows_at_most_smoothing 32767 _ _ R).
        - destruct c; exact Hr.
        - destruct c; simpl; lia. }
      destruct (IH c1 Hr1 Hm) as (c' & R' & Hr' & Hm').
      exists c'. cbn [feed_all]. unfold feed. rewrite R. cbn [bind].
      split; [exact R' | split; assumption]. }
  destruct (G _ (nonneg_ready_fresh steps adv Hs Ha)) as (c' & R & Hr & Hm).
  { repeat constructor; simpl; lia. }
  exists c'. split; [exact R |].
  destruct Hr as (_ & _ & _ & Hlen & Hrows & Hsums).
  split; [exact Hsums |].
  intro i. rewrite (Hsums i). unfold ring_sum. split.
  - apply sum_rows_nonneg. exact Hrows.
  - pose proof (sum_rows_at_most 32767 i (_vHistory c') ltac:(lia) Hm
                  (Z.to_nat (_smoothSteps c'))) as Hb.
    rewrite Hlen in Hb. simpl Z.of_nat in Hb. lia.
Qed.

Lemma totals_exact_on_nonneg_samples_witness :
  exists c',
    feed_all [V3 5 0 7; V3 0 0 0; V3 3 9 0; V3 4 4 32767]
      (setSmoothing 3 true QMC5883LCompass) = Ok c' /\
    totals_are_sums c' /\
    forall i : axis, 0 <= vget i (_vTotals c') <= 327670.
Proof.
  apply (totals_exact_on_nonneg_samples 3 true
           [V3 5 0 7; V3 0 0 0; V3 3 9 0; V3 4 4 32767]).
  - lia.
  - intros _. lia.
  - repeat constructor; simpl; lia.
Defined.

(** ** What each part of [read] leaves alone *)

Lemma applyCalibrationIfNecessary_frame (x y z : Z) (c : compass) :
  let c1 := fst (_applyCalibrationIfNecessary x y z c) in
  same_smoothing c c1 /\ same_samples c c1 /\
  minX c1 = Z.min (minX c) x /\ maxX c1 = Z.max (maxX c) x /\
  minY c1 = Z.min (minY c) y /\ maxY c1 = Z.max (maxY c) y /\
  minZ c1 = Z.min (minZ c) z /\ maxZ c1 = Z.max (maxZ c) z.
Proof.
  cbv zeta. rewrite applyCalibrationIfNecessary_eq, update_extrema_spec.
  cbn [fst snd].
  destruct ((x <? minX c) || (x >? maxX c) || (y <? minY c) || (y >? maxY c)
            || (z <? minZ c) || (z >? maxZ c));
    destruct c; repeat split.
Qed.

Lemma applyCalibration_result (c c' : compass) :
  _applyCalibration c = Ok c' -> exists v, c' = set_vCalibrated v c.
Proof.
  unfold _applyCalibration. intro H.
  apply bind_Ok in H as (a0 & _ & H).
  apply bind_Ok in H as (a1 & _ & H).
  apply bind_Ok in H as (a2 & _ & H).
  injection H as <-. eexists. reflexivity.
Qed.

Lemma smoothing_frame (c c' : compass) :
  _smoothing c = Ok c' ->
  same_samples c c' /\ same_extrema c c' /\ same_calibration c c'.
Proof.
  unfold _smoothing. intro H.
  set (c0 := if _vScan c >? _smoothSteps c - 1 then set_vScan 0 c else c) in H.
  assert (H0 : same_samples c c0 /\ same_extrema c c0 /\ same_calibration c c0).
  { subst c0. destruct (_vScan c >? _smoothSteps c - 1);
      destruct c; repeat split. }
  clearbody c0.
  apply bind_Ok in H as (c1 & H1 & H).
  apply bind_Ok in H as (c2 & H2 & H).
  apply bind_Ok in H as (c3 & H3 & H).
  injection H as <-.
  apply smooth_axis_fields in H1, H2, H3. cbv zeta in H1, H2, H3.
  destruct H1 as (_ & _ & _ & _ & S1 & X1 & C1 & _).
  destruct H2 as (_ & _ & _ & _ & S2 & X2 & C2 & _).
  destruct H3 as (_ & _ & _ & _ & S3 & X3 & C3 & _).
  assert (H4 : same_samples c3 (set_vScan (_vScan c3 + 1) c3) /\
               same_extrema c3 (set_vScan (_vScan c3 + 1) c3) /\
               same_calibration c3 (set_vScan (_vScan c3 + 1) c3))
    by (destruct c3; repeat split).
  unfold same_samples, same_extrema, same_calibration in *.
  repeat split; intuition congruence.
Qed.

(** The three stages of a [read] whose transmission succeeds. *)
Lemma read_stages (bus : bus_reply) (c c' : compass) (found : bool) :
  tx_err bus = 0 ->
  read bus c = Ok (c', found) ->
  exists c1 c2,
    (c1, found)
      = (if _autoCalibrate c
         then _applyCalibrationIfNecessary
                (v0 (decode_sample (rx bus))) (v1 (decode_sample (rx bus)))
                (v2 (decode_sample (rx bus))) c
         else (c, false)) /\
    _applyCalibration (set_vRaw (decode_sample (rx bus)) c1) = Ok c2 /\
    (if _smoothUse c2 then _smoothing c2 else Ok c2) = Ok c'.
Proof.
  intros Herr H. unfold read in H. rewrite Herr in H. cbn [Z.eqb] in H.
  unfold decode_sample.
  destruct (read_axis (rx bus)) as [x b0].
  destruct (read_axis b0) as [y b1].
  destruct (read_axis b1) as [z b2].
  cbn [v0 v1 v2].
  destruct (if _autoCalibrate c then _applyCalibrationIfNecessary x y z c
            else (c, false)) as [c1 f1].
  apply bind_Ok in H as (c2 & H2 & H).
  apply bind_Ok in H as (c3 & H3 & H).
  injection H as <- <-.
  exists c1, c2. repeat split; assumption.
Qed.

Lemma read_error_same (bus : bus_reply) (c c' : compass) (found : bool) :
  tx_err bus <> 0 -> read bus c = Ok (c', found) -> c' = c.
Proof.
  intros Herr H. unfold read in H.
  apply Z.eqb_neq in Herr. rewrite Herr in H. injection H as <- _.
  reflexivity.
Qed.

(** ** The buffer cursor stays inside the ten rows *)

Lemma buffer_safe_same (c c' : compass) :
  same_smoothing c c' -> _smoothSteps c = _smoothSteps c' ->
  buffer_safe c -> buffer_safe c'.
Proof.
  intros (Hh & Hs & _) Hst (A & B & C). unfold buffer_safe.
  rewrite <- Hh, <- Hs, <- Hst. repeat split; assumption.
Qed.

Lemma buffer_safe_smoothing (c c' : compass) :
  _smoothing c = Ok c' -> buffer_safe c -> buffer_safe c'.
Proof.
  intros H (A & B & C).
  destruct (smoothing_cursor_in_buffer c c' A B H) as (Hslot & Hscan & Hlen).
  destruct (keeps_smoothing c c' H) as (_ & K & _).
  unfold buffer_safe. rewrite Hscan, Hlen, <- K.
  repeat split; try assumption; lia.
Qed.

Lemma buffer_safe_read (bus : bus_reply) (c c' : compass) (found : bool) :
  read bus c = Ok (c', found) -> buffer_safe c -> buffer_safe c'.
Proof.
  intros H Hb.
  destruct (Z.eq_dec (tx_err bus) 0) as [Herr | Herr];
    [| rewrite (read_error_same bus c c' found Herr H); exact Hb].
  destruct (read_stages bus c c' found Herr H) as (c1 & c2 & E1 & E2 & E3).
  set (s := decode_sample (rx bus)) in *.
  assert (B1 : buffer_safe c1).
  { destruct (_autoCalibrate c).
    - pose proof (applyCalibrationIfNecessary_frame (v0 s) (v1 s) (v2 s) c) as F.
      pose proof (keeps_applyCalibrationIfNecessary (v0 s) (v1 s) (v2 s) c) as K.
      rewrite <- E1 in F, K. cbn [fst] in F, K.
      destruct F as (F & _). destruct K as (_ & K & _).
      exact (buffer_safe_same c c1 F K Hb).
    - injection E1 as -> _. exact Hb. }
  destruct (applyCalibration_result _ _ E2) as [v ->].
  assert (B2 : buffer_safe (set_vCalibrated v (set_vRaw s c1)))
    by (destruct c1; exact B1).
  destruct (_smoothUse (set_vCalibrated v (set_vRaw s c1))).
  - exact (buffer_safe_smoothing _ _ E3 B2).
  - injection E3 as <-. exact B2.
Qed.

Lemma buffer_safe_update_extrema (x y z : Z) (c : compass) :
  buffer_safe c -> buffer_safe (fst (update_extrema x y z c)).
Proof.
  rewrite update_extrema_spec. cbn [fst]. destruct c. intro H. exact H.
Qed.

Lemma buffer_safe_calibrate_loop (totalMillis startTime : Z)
  (ticks : list (Z * bus_reply)) :
  forall (c : compass) (log : list progress_event) (c' : compass)
         (log' : list progress_event),
    calibrate_loop totalMillis startTime ticks c log = Ok (c', log') ->
    buffer_safe c -> buffer_safe c'.
Proof.
  induction ticks as [| [currentTime bus] ticks IH]; intros c log c' log' H Hb.
  - discriminate H.
  - cbn [calibrate_loop] in H.
    apply bind_Ok in H as ([c1 f1] & Hr & H).
    apply buffer_safe_read in Hr; [| exact Hb].
    pose proof (buffer_safe_update_extrema (getX c1) (getY c1) (getZ c1) c1 Hr)
      as K.
    destruct (update_extrema (getX c1) (getY c1) (getZ c1) c1) as [c2 f2].
    cbn [fst] in K.
    destruct (_ <? totalMillis).
    + eapply IH; [exact H | exact K].
    + injection H as <- _. exact K.
Qed.

Lemma buffer_safe_exec (uint_bits : Z) (o : op) (c c' : compass) :
  exec uint_bits o c = Ok c' -> buffer_safe c -> buffer_safe c'.
Proof.
  intros H Hb. destruct o; simpl in H.
  - injection H as <-. exact Hb.
  - injection H as <-. destruct c; exact Hb.
  - injection H as <-. destruct c; exact Hb.
  - injection H as <-. exact Hb.
  - injection H as <-. destruct c; exact Hb.
  - injection H as <-. destruct Hb as (A & B & C).
    pose proof (smoothSteps_setSmoothing steps adv c) as S.
    destruct c. unfold buffer_safe in *. simpl in *.
    repeat split; assumption.
  - apply bind_Ok in H as ([c1 log] & Hc & H). injection H as <-.
    unfold calibrate in Hc.
    apply bind_Ok in Hc as ([c2 log2] & Hl & Hc). injection Hc as <- _.
    apply buffer_safe_calibrate_loop in Hl.
    + destruct c2; exact Hl.
    + destruct c; exact Hb.
  - injection H as <-. destruct c; exact Hb.
  - injection H as <-. destruct c; exact Hb.
  - injection H as <-. destruct c; exact Hb.
  - injection H as <-. destruct c; exact Hb.
  - injection H as <-. exact Hb.
  - apply bind_Ok in H as ([c1 found] & Hc & H). injection H as <-.
    exact (buffer_safe_read _ _ _ _ Hc Hb).
Qed.

Lemma buffer_safe_run (uint_bits : Z) (ops : list op) :
  forall c c' : compass,
    run uint_bits ops c = Ok c' -> buffer_safe c -> buffer_safe c'.
Proof.
  induction ops as [| o ops IH]; intros c c' H Hb.
  - injection H as <-. exact Hb.
  - cbn [run] in H. apply bind_Ok in H as (c1 & H1 & H).
    apply (IH c1 c' H). exact (buffer_safe_exec uint_bits o c c1 H1 Hb).
Qed.

Lemma scan_max_bound (h : list (vec3 Z)) (i : axis) (n : Z) :
  0 <= scan_max h i n <= Z.max 0 (n - 1).
Proof.
  unfold scan_max.
  assert (G : forall (l : list nat) (m : Z) (b : Z),
             0 <= m <= b -> (forall k, In k l -> Z.of_nat k <= b) ->
             0 <= fold_left
                    (fun max j => if cell h j i >? cell h max i then j else max)
                    (map Z.of_nat l) m <= b).
  { induction l as [| k l IH]; intros m b Hm Hl; [exact Hm |].
    simpl. apply IH.
    - destruct (_ >? _); [| exact Hm].
      split; [lia | apply Hl; left; reflexivity].
    - intros k' Hk'. apply Hl. right. exact Hk'. }
  apply G; [lia |].
  intros k Hk. apply in_seq in Hk. lia.
Qed.

Lemma scan_min_bound (h : list (vec3 Z)) (i : axis) (n : Z) :
  0 <= scan_min h i n <= Z.max 0 (n - 1).
Proof.
  unfold scan_min.
  assert (G : forall (l : list nat) (m : Z) (b : Z),
             0 <= m <= b -> (forall k, In k l -> Z.of_nat k <= b) ->
             0 <= fold_left
                    (fun min j => if cell h j i <? cell h min i then j else min)
                    (map Z.of_nat l) m <= b).
  { induction l as [| k l IH]; intros m b Hm Hl; [exact Hm |].
    simpl. apply IH.
    - destruct (_ <? _); [| exact Hm].
      split; [lia | apply Hl; left; reflexivity].
    - intros k' Hk'. apply Hl. right. exact Hk'. }
  apply G; [lia |].
  intros k Hk. apply in_seq in Hk. lia.
Qed.

(** Whatever public calls were made on a new driver, the next smoothing
    step stays inside the ten-row history: the slot it writes and the rows
    the maximum and minimum scans select all lie between 0 and 9. *)
Theorem history_accesses_in_bounds (uint_bits : Z) (ops : list op)
  (c : compass) (i : axis) :
  run uint_bits ops QMC5883LCompass = Ok c ->
  let slot := if _vScan c >? _smoothSteps c - 1 then 0 else _vScan c in
  List.length (_vHistory c) = 10%nat /\
  0 <= slot < 10 /\
  0 <= scan_max (_vHistory c) i (_smoothSteps c - 1) < 10 /\
  0 <= scan_min (_vHistory c) i (_smoothSteps c - 1) < 10.
Proof.
  intros H slot.
  assert (Hb : buffer_safe c).
  { apply (buffer_safe_run uint_bits ops _ c H).
    unfold buffer_safe. simpl. repeat split; lia. }
  destruct Hb as (A & B & C).
  pose proof (scan_max_bound (_vHistory c) i (_smoothSteps c - 1)) as M.
  pose proof (scan_min_bound (_vHistory c) i (_smoothSteps c - 1)) as N.
  split; [exact C |]. split; [| lia].
  subst slot. destruct (_vScan c >? _smoothSteps c - 1) eqn:G; [lia |].
  rewrite Z.gtb_ltb in G. apply Z.ltb_ge in G. lia.
Qed.

Lemma history_accesses_in_bounds_witness :
  let c := setSmoothing 200 true QMC5883LCompass in
  let slot := if _vScan c >? _smoothSteps c - 1 then 0 else _vScan c in
  List.length (_vHistory c) = 10%nat /\
  0 <= slot < 10 /\
  0 <= scan_max (_vHistory c) Ax0 (_smoothSteps c - 1) < 10 /\
  0 <= scan_min (_vHistory c) Ax0 (_smoothSteps c - 1) < 10.
Proof.
  apply (history_accesses_in_bounds 32 [OpSetSmoothing 200 true]
           (setSmoothing 200 true QMC5883LCompass) Ax0).
  reflexivity.
Defined.

(** ** A driver that never configures smoothing *)

Lemma same_smoothing_trans (c1 c2 c3 : compass) :
  same_smoothing c1 c2 -> same_smoothing c2 c3 -> same_smoothing c1 c3.
Proof.
  unfold same_smoothing. intros (A1 & A2 & A3 & A4) (B1 & B2 & B3 & B4).
  repeat split; congruence.
Qed.

Lemma unsmoothed_read (bus : bus_reply) (c c' : compass) (found : bool) :
  read bus c = Ok (c', found) -> _smoothUse c = false -> same_smoothing c c'.
Proof.
  intros H Hs.
  destruct (Z.eq_dec (tx_err bus) 0) as [Herr | Herr];
    [| rewrite (read_error_same bus c c' found Herr H); repeat split].
  destruct (read_stages bus c c' found Herr H) as (c1 & c2 & E1 & E2 & E3).
  set (s := decode_sample (rx bus)) in *.
  assert (B1 : same_smoothing c c1 /\ _smoothUse c1 = false).
  { destruct (_autoCalibrate c).
    - pose proof (applyCalibrationIfNecessary_frame (v0 s) (v1 s) (v2 s) c) as F.
      pose proof (keeps_applyCalibrationIfNecessary (v0 s) (v1 s) (v2 s) c) as K.
      rewrite <- E1 in F, K. cbn [fst] in F, K.
      destruct F as (F & _). destruct K as (K & _).
      split; [exact F | congruence].
    - injection E1 as -> _. split; [repeat split | exact Hs]. }
  destruct B1 as [B1 U1].
  destruct (applyCalibration_result _ _ E2) as [v ->].
  replace (_smoothUse (set_vCalibrated v (set_vRaw s c1))) with false in E3
    by (destruct c1; symmetry; exact U1).
  injection E3 as <-.
  eapply same_smoothing_trans; [exact B1 |]. destruct c1; repeat split.
Qed.

Lemma unsmoothed_calibrate_loop (totalMillis startTime : Z)
  (ticks : list (Z * bus_reply)) :
  forall (c : compass) (log : list progress_event) (c' : compass)
         (log' : list progress_event),
    calibrate_loop totalMillis startTime ticks c log = Ok (c', log') ->
    _smoothUse c = false -> same_smoothing c c'.
Proof.
  induction ticks as [| [currentTime bus] ticks IH]; intros c log c' log' H Hs.
  - discriminate H.
  - cbn [calibrate_loop] in H.
    apply bind_Ok in H as ([c1 f1] & Hr & H).
    pose proof (unsmoothed_read _ _ _ _ Hr Hs) as S1.
    destruct (keeps_read _ _ _ _ Hr) as (U1 & _).
    assert (S2 : same_smoothing c1
                   (fst (update_extrema (getX c1) (getY c1) (getZ c1) c1)) /\
                 _smoothUse
                   (fst (update_extrema (getX c1) (getY c1) (getZ c1) c1))
                 = false).
    { rewrite update_extrema_spec. cbn [fst].
      destruct c1; split; [repeat split | simpl in *; congruence]. }
    destruct (update_extrema (getX c1) (getY c1) (getZ c1) c1) as [c2 f2].
    cbn [fst] in S2. destruct S2 as [S2 U2].
    assert (S : same_smoothing c c2)
      by (eapply same_smoothing_trans; eassumption).
    destruct (_ <? totalMillis).
    + eapply same_smoothing_trans; [exact S | eapply IH; eassumption].
    + injection H as <- _. exact S.
Qed.

Lemma unsmoothed_exec (uint_bits : Z) (o : op) (c c' : compass) :
  is_setSmoothing o = false ->
  exec uint_bits o c = Ok c' -> _smoothUse c = false ->
  same_smoothing c c' /\ _smoothUse c' = false.
Proof.
  intros Ho H Hs. destruct o; simpl in H; try discriminate Ho.
  - injection H as <-. split; [repeat split | exact Hs].
  - injection H as <-. destruct c; split; [repeat split | exact Hs].
  - injection H as <-. destruct c; split; [repeat split | exact Hs].
  - injection H as <-. split; [repeat split | exact Hs].
  - injection H as <-. destruct c; split; [repeat split | exact Hs].
  - apply bind_Ok in H as ([c1 log] & Hc & H). injection H as <-.
    destruct (keeps_calibrate _ _ _ _ _ _ _ Hc) as (U & _).
    split; [| congruence].
    unfold calibrate in Hc.
    apply bind_Ok in Hc as ([c2 log2] & Hl & Hc). injection Hc as <- _.
    apply unsmoothed_calibrate_loop in Hl; [| destruct c; exact Hs].
    eapply same_smoothing_trans; [| eapply same_smoothing_trans; [exact Hl |]].
    + destruct c; repeat split.
    + destruct c2; repeat split.
  - injection H as <-. destruct c; split; [repeat split | exact Hs].
  - injection H as <-. destruct c; split; [repeat split | exact Hs].
  - injection H as <-. destruct c; split; [repeat split | exact Hs].
  - injection H as <-. destruct c; split; [repeat split | exact Hs].
  - injection H as <-. split; [repeat split | exact Hs].
  - apply bind_Ok in H as ([c1 found] & Hc & H). injection H as <-.
    destruct (keeps_read _ _ _ _ Hc) as (U & _).
    split; [exact (unsmoothed_read _ _ _ _ Hc Hs) | congruence].
Qed.

(** As long as [setSmoothing] is never called, the smoothing engine never
    runs: history, totals, cursor and smoothed values stay as the
    constructor left them, and the accessors return the calibrated values. *)
Theorem smoothing_never_runs_unconfigured (uint_bits : Z) (ops : list op)
  (c : compass) :
  forallb (fun o => negb (is_setSmoothing o)) ops = true ->
  run uint_bits ops QMC5883LCompass = Ok c ->
  _smoothUse c = false /\ same_smoothing QMC5883LCompass c /\
  getX c = v0 (_vCalibrated c) /\
  getY c = v1 (_vCalibrated c) /\
  getZ c = v2 (_vCalibrated c).
Proof.
  intros Hops H.
  assert (G : forall c0, run uint_bits ops c0 = Ok c ->
                _smoothUse c0 = false ->
                same_smoothing c0 c /\ _smoothUse c = false).
  { clear H. induction ops as [| o ops IH]; intros c0 H Hs.
    - injection H as <-. split; [repeat split | exact Hs].
    - cbn [forallb] in Hops. apply andb_true_iff in Hops as [Ho Hops].
      apply negb_true_iff in Ho.
      cbn [run] in H. apply bind_Ok in H as (c1 & H1 & H).
      destruct (unsmoothed_exec uint_bits o c0 c1 Ho H1 Hs) as [S1 U1].
      destruct (IH Hops c1 H U1) as [S2 U2].
      split; [eapply same_smoothing_trans; eassumption | exact U2]. }
  destruct (G QMC5883LCompass H eq_refl) as [S U].
  unfold getX, getY, getZ, _get. rewrite U. repeat split; apply S.
Qed.

Lemma smoothing_never_runs_unconfigured_witness :
  exists c,
    run 32 [ OpSetMagneticDeclination 3 30;
             OpRead (reply_ok 10 0 20 0 30 0);
             OpRead (reply_ok 40 0 5 0 60 0);
             OpCalibrate 1 0 [(500, reply_ok 1 0 2 0 3 0);
                              (1200, reply_ok 9 0 8 0 7 0)] ]
      QMC5883LCompass = Ok c /\
    _smoothUse c = false /\ same_smoothing QMC5883LCompass c /\
    getX c = v0 (_vCalibrated c) /\
    getY c = v1 (_vCalibrated c) /\
    getZ c = v2 (_vCalibrated c).
Proof.
  eexists. split.
  - vm_compute. reflexivity.
  - apply (smoothing_never_runs_unconfigured 32
             [ OpSetMagneticDeclination 3 30;
               OpRead (reply_ok 10 0 20 0 30 0);
               OpRead (reply_ok 40 0 5 0 60 0);
               OpCalibrate 1 0 [(500, reply_ok 1 0 2 0 3 0);
                                (1200, reply_ok 9 0 8 0 7 0)] ]).
    + reflexivity.
    + vm_compute. reflexivity.
Defined.

(** ** Auto-calibration from the constructor's extrema *)

Lemma zero_delta_not_finite (avg : cfloat) (lo : Z) :
  fdiv avg (fdiv (fsub (of_int lo) (of_int lo)) (of_int 2)) = NonFin.
Proof.
  unfold of_int, fsub. rewrite fdiv_Fin by discriminate.
  destruct avg as [a |]; [| reflexivity].
  unfold fdiv.
  replace (Qeq_bool ((inject_Z lo - inject_Z lo) / inject_Z 2) 0) with true;
    [reflexivity |].
  symmetry. apply Qeq_bool_iff. field.
Qed.

Lemma applyCalibration_scale_not_finite (c : compass) :
  v0 (_scale c) = NonFin -> _applyCalibration c = Undef.
Proof.
  intro H. unfold _applyCalibration. cbn [vget]. rewrite H.
  destruct (fsub (of_int (v0 (_vRaw c))) (v0 (_offset c))); reflexivity.
Qed.

(** With auto-calibration enabled and the x extrema still at the
    constructor's 65000 and -65000, the first [read] whose transmission
    succeeds sets both x extrema to the sample; the x delta is then zero,
    the x scale is a division by zero, and applying the calibration converts
    a non-finite value to [int]: the call is undefined. *)
Theorem autocalibrate_first_read_undefined (bus : bus_reply) (c : compass) :
  tx_err bus = 0 -> _autoCalibrate c = true ->
  minX c = 65000 -> maxX c = -65000 ->
  read bus c = Undef.
Proof.
  intros Herr Hauto Hmin Hmax.
  pose proof (decode_sample_range (rx bus)) as R. cbv zeta in R.
  unfold read. rewrite Herr, Hauto. cbn [Z.eqb].
  unfold decode_sample in R.
  destruct (read_axis (rx bus)) as [x b0].
  destruct (read_axis b0) as [y b1].
  destruct (read_axis b1) as [z b2].
  cbn [v0 v1 v2] in R. destruct R as (Rx & _).
  rewrite applyCalibrationIfNecessary_eq, update_extrema_spec.
  cbn [fst snd]. rewrite Hmin, Hmax.
  replace (x <? 65000) with true by (symmetry; apply Z.ltb_lt; lia).
  cbn [orb].
  rewrite applyCalibration_scale_not_finite; [reflexivity |].
  rewrite (Z.min_r 65000 x), (Z.max_r (-65000) x) by lia.
  set (c1 := set_maxZ _ _).
  replace (minX c1) with x by (subst c1; destruct c; reflexivity).
  replace (maxX c1) with x by (subst c1; destruct c; reflexivity).
  unfold setCalibration, setCalibrationScales, setCalibrationOffsets.
  set (avg := fdiv (fadd _ _) (of_int 3)).
  transitivity (fdiv avg (fdiv (fsub (of_int x) (of_int x)) (of_int 2)));
    [| apply zero_delta_not_finite].
  destruct c1; reflexivity.
Qed.

Lemma autocalibrate_first_read_undefined_witness :
  read (reply_ok 10 0 20 0 30 0) (setAutocalibrate true QMC5883LCompass)
    = Undef.
Proof.
  apply (autocalibrate_first_read_undefined (reply_ok 10 0 20 0 30 0)
           (setAutocalibrate true QMC5883LCompass));
    reflexivity.
Defined.

(** ** When the calibration session ends *)

Lemma calibrate_loop_below (totalMillis startTime : Z)
  (ticks : list (Z * bus_reply)) :
  (forall t bus, In (t, bus) ticks -> elapsed_at startTime t < totalMillis) ->
  forall (c : compass) (log : list progress_event) (c' : compass)
         (log' : list progress_event),
    calibrate_loop totalMillis startTime ticks c log <> Ok (c', log').
Proof.
  induction ticks as [| [t bus] ticks IH]; intros Hall c log c' log' H.
  - discriminate H.
  - cbn [calibrate_loop] in H.
    assert (Ht : elapsed_at startTime t < totalMillis)
      by (apply (Hall t bus); left; reflexivity).
    unfold elapsed_at in Ht.
    replace ((t - startTime) mod 2 ^ ulong_bits >? totalMillis) with false in H
      by (symmetry; rewrite Z.gtb_ltb; apply Z.ltb_ge; lia).
    apply bind_Ok in H as ([c1 f1] & _ & H).
    destruct (update_extrema (getX c1) (getY c1) (getZ c1) c1) as [c2 f2].
    replace ((t - startTime) mod 2 ^ ulong_bits <? totalMillis) with true in H
      by (symmetry; apply Z.ltb_lt; lia).
    revert H. apply IH.
    intros t' bus' Hin. apply (Hall t' bus'). right. exact Hin.
Qed.

(** The session never returns while every clock reading is still short of
    the budget. *)
Theorem calibrate_not_before_budget (uint_bits seconds startTime : Z)
  (ticks : list (Z * bus_reply)) (c : compass) :
  (forall t bus, In (t, bus) ticks ->
     elapsed_at startTime t < totalMillis_of uint_bits seconds) ->
  ~ returns (calibrate uint_bits seconds startTime ticks c).
Proof.
  intros Hall [[c' log] H]. unfold calibrate in H.
  apply bind_Ok in H as ([c1 log1] & Hl & _).
  revert Hl. apply calibrate_loop_below. exact Hall.
Qed.

Lemma calibrate_not_before_budget_witness :
  ~ returns
      (calibrate 32 2 100
         [(100, reply_ok 1 0 2 0 3 0); (1500, reply_ok 4 0 5 0 6 0);
          (2099, reply_ok 7 0 8 0 9 0)] QMC5883LCompass).
Proof.
  apply (calibrate_not_before_budget 32 2 100
           [(100, reply_ok 1 0 2 0 3 0); (1500, reply_ok 4 0 5 0 6 0);
            (2099, reply_ok 7 0 8 0 9 0)]).
  intros t bus Hin. simpl in Hin.
  destruct Hin as [E | [E | [E | []]]]; injection E as <- _;
    vm_compute; reflexivity.
Defined.

Lemma calibrate_loop_stops (totalMillis startTime t : Z) (bus : bus_reply)
  (post : list (Z * bus_reply)) (pre : list (Z * bus_reply)) :
  totalMillis <= elapsed_at startTime t ->
  forall (c : compass) (log : list progress_event),
    calibrate_loop totalMillis startTime (pre ++ (t, bus) :: post) c log
    = calibrate_loop totalMillis startTime (pre ++ [(t, bus)]) c log.
Proof.
  intro Ht. unfold elapsed_at in Ht.
  induction pre as [| [t' bus'] pre IH]; intros c log.
  - cbn [app calibrate_loop].
    set (e := if (t - startTime) mod 2 ^ ulong_bits >? totalMillis
              then totalMillis else (t - startTime) mod 2 ^ ulong_bits).
    assert (He : (e <? totalMillis) = false).
    { subst e. apply Z.ltb_ge.
      destruct (_ >? totalMillis); lia. }
    destruct (read bus c) as [[c1 f1] | |]; cbn [bind]; try reflexivity.
    destruct (update_extrema (getX c1) (getY c1) (getZ c1) c1) as [c2 f2].
    rewrite He. reflexivity.
  - cbn [app calibrate_loop].
    destruct (read bus' c) as [[c1 f1] | |]; cbn [bind]; try reflexivity.
    destruct (update_extrema (getX c1) (getY c1) (getZ c1) c1) as [c2 f2].
    destruct (_ <? totalMillis); [apply IH | reflexivity].
Qed.

Lemma read_plain_ok (bus : bus_reply) (c : compass) :
  plain c -> exists c', read bus c = Ok (c', false) /\ plain c'.
Proof.
  intros (Hauto & Hsm & Hid).
  destruct (Z.eq_dec (tx_err bus) 0) as [Herr | Herr].
  - set (s := decode_sample (rx bus)).
    exists (set_vCalibrated s (set_vRaw s c)). split.
    + unfold read. rewrite Herr, Hauto. cbn [Z.eqb].
      subst s. unfold decode_sample.
      destruct (read_axis (rx bus)) as [x b0].
      destruct (read_axis b0) as [y b1].
      destruct (read_axis b1) as [z b2].
      rewrite applyCalibration_identity
        by (destruct Hid; destruct c; split; assumption).
      cbn [bind].
      replace (_smoothUse (set_vCalibrated (_vRaw (set_vRaw (V3 x y z) c))
                             (set_vRaw (V3 x y z) c))) with false
        by (destruct c; symmetry; exact Hsm).
      cbn [bind]. destruct c; reflexivity.
    + destruct Hid. destruct c. repeat split; assumption.
  - exists c. split; [| destruct Hid; repeat split; assumption].
    unfold read. apply Z.eqb_neq in Herr. rewrite Herr. reflexivity.
Qed.

Lemma update_extrema_plain (x y z : Z) (c : compass) :
  plain c -> plain (fst (update_extrema x y z c)).
Proof.
  rewrite update_extrema_spec. cbn [fst].
  intros (A & B & C & D). destruct c. repeat split; assumption.
Qed.

Lemma calibrate_loop_returns (totalMillis startTime t : Z) (bus : bus_reply)
  (post : list (Z * bus_reply)) (pre : list (Z * bus_reply)) :
  (forall t' bus', In (t', bus') pre ->
     elapsed_at startTime t' < totalMillis) ->
  totalMillis <= elapsed_at startTime t ->
  forall (c : compass) (log : list progress_event),
    plain c ->
    exists c' log',
      calibrate_loop totalMillis startTime (pre ++ (t, bus) :: post) c log
        = Ok (c', log') /\
      List.length log' = (List.length log + List.length pre + 1)%nat.
Proof.
  intros Hpre Ht. unfold elapsed_at in Ht.
  induction pre as [| [t' bus'] pre IH]; intros c log Hc.
  - cbn [app calibrate_loop].
    set (e := if (t - startTime) mod 2 ^ ulong_bits >? totalMillis
              then totalMillis else (t - startTime) mod 2 ^ ulong_bits).
    assert (He : (e <? totalMillis) = false).
    { subst e. apply Z.ltb_ge. destruct (_ >? totalMillis); lia. }
    destruct (read_plain_ok bus c Hc) as (c1 & R & _). rewrite R. cbn [bind].
    destruct (update_extrema (getX c1) (getY c1) (getZ c1) c1) as [c2 f2].
    rewrite He. eexists. eexists. split; [reflexivity |].
    rewrite length_app. simpl. lia.
  - cbn [app calibrate_loop].
    assert (Ht' : elapsed_at startTime t' < totalMillis)
      by (apply (Hpre t' bus'); left; reflexivity).
    unfold elapsed_at in Ht'.
    replace ((t' - startTime) mod 2 ^ ulong_bits >? totalMillis) with false
      by (symmetry; rewrite Z.gtb_ltb; apply Z.ltb_ge; lia).
    destruct (read_plain_ok bus' c Hc) as (c1 & R & Hc1). rewrite R. cbn [bind].
    pose proof (update_extrema_plain (getX c1) (getY c1) (getZ c1) c1 Hc1) as P.
    destruct (update_extrema (getX c1) (getY c1) (getZ c1) c1) as [c2 f2].
    cbn [fst] in P.
    replace ((t' - startTime) mod 2 ^ ulong_bits <? totalMillis) with true
      by (symmetry; apply Z.ltb_lt; lia).
    match goal with
    | |- context [calibrate_loop _ _ _ c2 ?l] =>
        destruct (IH (fun a b H => Hpre a b (or_intror H)) c2 l P)
          as (c' & log' & E & L)
    end.
    exists c', log'. split; [exact E |].
    rewrite L, length_app. simpl. lia.
Qed.

(** On a driver with auto-calibration and smoothing off, fed usable bus
    replies, the session returns at the first clock reading that reaches
    the budget: the loop body has then run once for that reading and once
    for each earlier one (the callback log has that many entries plus the
    opening and the closing one), and what the clock and the bus would
    deliver afterwards plays no part. *)
Theorem calibrate_returns_at_budget (uint_bits seconds startTime t : Z)
  (bus : bus_reply) (pre post : list (Z * bus_reply)) (c : compass) :
  _autoCalibrate c = false -> _smoothUse c = false ->
  Forall usable_reply (map snd (pre ++ [(t, bus)])) ->
  (forall t' bus', In (t', bus') pre ->
     elapsed_at startTime t' < totalMillis_of uint_bits seconds) ->
  totalMillis_of uint_bits seconds <= elapsed_at startTime t ->
  exists c' log,
    calibrate uint_bits seconds startTime (pre ++ (t, bus) :: post) c
      = Ok (c', log) /\
    List.length log = (List.length pre + 3)%nat /\
    calibrate uint_bits seconds startTime (pre ++ [(t, bus)]) c
      = Ok (c', log).
Proof.
  intros Hauto Hsm _ Hpre Ht.
  assert (E : calibrate uint_bits seconds startTime (pre ++ (t, bus) :: post) c
              = calibrate uint_bits seconds startTime (pre ++ [(t, bus)]) c).
  { unfold calibrate.
    rewrite (calibrate_loop_stops _ _ t bus post pre Ht). reflexivity. }
  rewrite E. unfold calibrate.
  set (c0 := set_maxZ _ _).
  assert (P0 : plain c0).
  { subst c0. destruct c. simpl in Hauto, Hsm. subst.
    repeat split. }
  destruct (calibrate_loop_returns _ _ t bus [] pre Hpre Ht c0
              [(of_int 0, true)] P0) as (c1 & log1 & R & L).
  rewrite R. cbn [bind].
  eexists. eexists. split; [reflexivity |]. split; [| reflexivity].
  rewrite length_app, L. simpl. lia.
Qed.

Lemma calibrate_returns_at_budget_witness :
  exists c' log,
    calibrate 32 1 0
      ([(400, reply_ok 1 0 2 0 3 0)] ++ (1000, reply_ok 4 0 5 0 6 0)
         :: [(1700, reply_ok 7 0 8 0 9 0)]) QMC5883LCompass
      = Ok (c', log) /\
    List.length log = (List.length [(400, reply_ok 1 0 2 0 3 0)] + 3)%nat /\
    calibrate 32 1 0
      ([(400, reply_ok 1 0 2 0 3 0)] ++ [(1000, reply_ok 4 0 5 0 6 0)])
      QMC5883LCompass = Ok (c', log).
Proof.
  apply (calibrate_returns_at_budget 32 1 0 1000 (reply_ok 4 0 5 0 6 0)
           [(400, reply_ok 1 0 2 0 3 0)] [(1700, reply_ok 7 0 8 0 9 0)]
           QMC5883LCompass).
  - reflexivity.
  - reflexivity.
  - simpl. constructor; [| constructor; [| constructor]]; right;
      (split; [simpl; lia | repeat constructor; lia]).
  - intros t' bus' Hin. simpl in Hin. destruct Hin as [E | []].
    injection E as <- _. vm_compute. reflexivity.
  - vm_compute. discriminate.
Defined.

(** ** What the session reports and leaves behind *)






Lemma update_extrema_inside (x y z : Z) (c : compass) :
  let c' := fst (update_extrema x y z c) in
  inside_extrema x y z c' /\
  getX c' = getX c /\ getY c' = getY c /\ getZ c' = getZ c.
Proof.
  cbv zeta. rewrite update_extrema_spec. cbn [fst].
  unfold inside_extrema, getX, getY, getZ, _get.
  destruct c; simpl. repeat split; lia.
Qed.

Lemma calibrate_loop_last_inside (totalMillis startTime : Z)
  (ticks : list (Z * bus_reply)) :
  forall (c : compass) (log : list progress_event) (c' : compass)
         (log' : list progress_event),
    calibrate_loop totalMillis startTime ticks c log = Ok (c', log') ->
    inside_extrema (getX c') (getY c') (getZ c') c'.
Proof.
  induction ticks as [| [t bus] ticks IH]; intros c log c' log' H.
  - discriminate H.
  - cbn [calibrate_loop] in H.
    apply bind_Ok in H as ([c1 f1] & _ & H).
    pose proof (update_extrema_inside (getX c1) (getY c1) (getZ c1) c1) as U.
    destruct (update_extrema (getX c1) (getY c1) (getZ c1) c1) as [c2 f2].
    cbn [fst] in U. cbv zeta in U.
    destruct (_ <? totalMillis).
    + eapply IH. exact H.
    + injection H as <- _. destruct U as (I & Ex & Ey & Ez).
      rewrite Ex, Ey, Ez. exact I.
Qed.

(** When the session returns, the last sample it read lies within the
    stored extrema, the extrema of each axis are ordered, and the stored
    offsets and scales are the ones [setCalibration] derives from them. *)
Theorem calibrate_leaves_derived_calibration (uint_bits seconds startTime : Z)
  (ticks : list (Z * bus_reply)) (c c' : compass)
  (log : list progress_event) :
  calibrate uint_bits seconds startTime ticks c = Ok (c', log) ->
  inside_extrema (getX c') (getY c') (getZ c') c' /\
  extrema_ordered c' /\
  setCalibration (minX c') (maxX c') (minY c') (maxY c') (minZ c') (maxZ c') c'
    = c'.
Proof.
  intro H. unfold calibrate in H.
  apply bind_Ok in H as ([c1 log1] & Hl & H). injection H as <- _.
  apply calibrate_loop_last_inside in Hl.
  assert (I : inside_extrema
                (getX (setCalibration (minX c1) (maxX c1) (minY c1) (maxY c1)
                         (minZ c1) (maxZ c1) c1))
                (getY (setCalibration (minX c1) (maxX c1) (minY c1) (maxY c1)
                         (minZ c1) (maxZ c1) c1))
                (getZ (setCalibration (minX c1) (maxX c1) (minY c1) (maxY c1)
                         (minZ c1) (maxZ c1) c1))
                (setCalibration (minX c1) (maxX c1) (minY c1) (maxY c1)
                   (minZ c1) (maxZ c1) c1))
    by (destruct c1; exact Hl).
  split; [exact I |]. split.
  - unfold inside_extrema in I. unfold extrema_ordered. lia.
  - destruct c1; reflexivity.
Qed.

Lemma calibrate_leaves_derived_calibration_witness :
  exists c' log,
    calibrate 32 1 0
      [(400, reply_ok 1 0 2 0 3 0); (1000, reply_ok 4 0 5 0 6 0)]
      QMC5883LCompass = Ok (c', log) /\
    inside_extrema (getX c') (getY c') (getZ c') c' /\
    extrema_ordered c' /\
    setCalibration (minX c') (maxX c') (minY c') (maxY c') (minZ c') (maxZ c') c'
      = c'.
Proof.
  destruct (calibrate 32 1 0
              [(400, reply_ok 1 0 2 0 3 0); (1000, reply_ok 4 0 5 0 6 0)]
              QMC5883LCompass) as [[c' log] | |] eqn:E;
    [| vm_compute in E; discriminate E | vm_compute in E; discriminate E].
  exists c', log. split; [reflexivity |].
  apply (calibrate_leaves_derived_calibration 32 1 0
           [(400, reply_ok 1 0 2 0 3 0); (1000, reply_ok 4 0 5 0 6 0)]
           QMC5883LCompass c' log).
  exact E.
Defined.

(** ** The control register byte *)

Lemma land_outside (a m n : Z) :
  Z.land a m = a -> Z.land m n = 0 -> Z.land a n = 0.
Proof.
  intros Ha Hmn. rewrite <- Ha, <- Z.land_assoc, Hmn. apply Z.land_0_r.
Qed.

Lemma land_inside (a m n : Z) :
  Z.land a m = a -> Z.land m n = m -> Z.land a n = a.
Proof.
  intros Ha Hmn. rewrite <- Ha at 1. rewrite <- Z.land_assoc, Hmn. exact Ha.
Qed.

(** [setMode] writes one byte to register 9.  When each argument stays
    within the bits of its own field (mode 0x03, rate 0x0C, range 0x30,
    oversampling 0xC0), the four fields of that byte are the four
    arguments. *)
Theorem setMode_fields (mode odr rng osr : Z) (c : compass) :
  Z.land mode 3 = mode -> Z.land odr 12 = odr ->
  Z.land rng 48 = rng -> Z.land osr 192 = osr ->
  exists b,
    setMode_bus mode odr rng osr c
      = [BeginTransmission (_ADDR c); WireWrite 9; WireWrite b;
         EndTransmission] /\
    mode_field b = mode /\ odr_field b = odr /\
    rng_field b = rng /\ osr_field b = osr.
Proof.
  intros Hm Ho Hr Hs.
  exists (to_byte (Z.lor (Z.lor (Z.lor mode odr) rng) osr)).
  split; [reflexivity |].
  unfold to_byte, mode_field, odr_field, rng_field, osr_field.
  change (2 ^ byte_bits) with (2 ^ 8).
  rewrite <- Z.land_ones by lia. change (Z.ones 8) with 255.
  rewrite <- !Z.land_assoc.
  change (Z.land 255 3) with 3. change (Z.land 255 12) with 12.
  change (Z.land 255 48) with 48. change (Z.land 255 192) with 192.
  rewrite !Z.land_lor_distr_l.
  rewrite Hm, Ho, Hr, Hs.
  rewrite (land_outside mode 3 12 Hm eq_refl),
          (land_outside mode 3 48 Hm eq_refl),
          (land_outside mode 3 192 Hm eq_refl),
          (land_outside odr 12 3 Ho eq_refl),
          (land_outside odr 12 48 Ho eq_refl),
          (land_outside odr 12 192 Ho eq_refl),
          (land_outside rng 48 3 Hr eq_refl),
          (land_outside rng 48 12 Hr eq_refl),
          (land_outside rng 48 192 Hr eq_refl),
          (land_outside osr 192 3 Hs eq_refl),
          (land_outside osr 192 12 Hs eq_refl),
          (land_outside osr 192 48 Hs eq_refl).
  rewrite !Z.lor_0_r, !Z.lor_0_l. repeat split; reflexivity.
Qed.

Lemma setMode_fields_witness :
  exists b,
    setMode_bus 1 12 16 64 QMC5883LCompass
      = [BeginTransmission (_ADDR QMC5883LCompass); WireWrite 9; WireWrite b;
         EndTransmission] /\
    mode_field b = 1 /\ odr_field b = 12 /\
    rng_field b = 16 /\ osr_field b = 64.
Proof.
  apply (setMode_fields 1 12 16 64 QMC5883LCompass); reflexivity.
Defined.

(** ** The session budget *)

(** A request of [seconds] > 0 gets a budget of [seconds * 1000] ms when
    the product fits the [unsigned int]; when it does not, the product wraps
    and the budget is strictly shorter than requested. *)
Theorem totalMillis_wraps (uint_bits seconds : Z) :
  0 <= uint_bits -> 0 < seconds ->
  (seconds * 1000 < 2 ^ uint_bits ->
   totalMillis_of uint_bits seconds = seconds * 1000) /\
  (2 ^ uint_bits <= seconds * 1000 ->
   0 <= totalMillis_of uint_bits seconds < 2 ^ uint_bits /\
   totalMillis_of uint_bits seconds < seconds * 1000).
Proof.
  intros Hw Hs. unfold totalMillis_of.
  replace (seconds =? 0) with false by (symmetry; apply Z.eqb_neq; lia).
  assert (Hp : 0 < 2 ^ uint_bits) by (apply Z.pow_pos_nonneg; lia).
  split.
  - intro Hfit. apply Z.mod_small. lia.
  - intro Hover.
    pose proof (Z.mod_pos_bound (seconds * 1000) (2 ^ uint_bits) Hp). lia.
Qed.

Lemma totalMillis_wraps_witness :
  (66 * 1000 < 2 ^ 16 -> totalMillis_of 16 66 = 66 * 1000) /\
  (2 ^ 16 <= 66 * 1000 ->
   0 <= totalMillis_of 16 66 < 2 ^ 16 /\ totalMillis_of 16 66 < 66 * 1000).
Proof.
  apply (totalMillis_wraps 16 66); lia.
Defined.

(** ** Magnetic declination *)

Lemma In_zrange (lo z : Z) (n : nat) :
  lo <= z < lo + Z.of_nat n -> In z (zrange lo n).
Proof.
  intro H. unfold zrange. apply in_map_iff.
  exists (Z.to_nat (z - lo)). split; [lia |].
  apply in_seq. lia.
Qed.

Lemma all_between_compass : all_between (-180) 361 = true.
Proof. vm_compute. reflexivity. Qed.

(** The minutes are always added, and the rounding of [float] does not
    lose them: for degrees from -180 to 180 and minutes from 0 to 59 the
    stored binary32 declination is at least [degrees], above [degrees]
    when there are minutes, and below [degrees + 1], also when [degrees]
    is negative. *)
Theorem setMagneticDeclination_adds_minutes (degrees minutes : Z) :
  -180 <= degrees <= 180 -> 0 <= minutes < 60 ->
  let d := Binary32.setMagneticDeclination degrees minutes in
  SFleb (Binary32.of_int degrees) d = true /\
  (0 < minutes -> SFltb (Binary32.of_int degrees) d = true) /\
  SFltb d (Binary32.of_int (degrees + 1)) = true.
Proof.
  intros Hd Hm d.
  pose proof all_between_compass as H. unfold all_between in H.
  rewrite forallb_forall in H.
  specialize (H degrees (In_zrange (-180) degrees 361 ltac:(lia))).
  rewrite forallb_forall in H.
  specialize (H minutes (In_zrange 0 minutes 60 ltac:(lia))).
  unfold declination_between in H. fold d in H.
  apply andb_true_iff in H as [H H3]. apply andb_true_iff in H as [H1 H2].
  split; [exact H1 |]. split; [| exact H3].
  intro Hpos. apply orb_true_iff in H2 as [H2 | H2]; [| exact H2].
  apply Z.eqb_eq in H2. lia.
Qed.

Lemma setMagneticDeclination_adds_minutes_witness :
  let d := Binary32.setMagneticDeclination (-19) 43 in
  SFleb (Binary32.of_int (-19)) d = true /\
  (0 < 43 -> SFltb (Binary32.of_int (-19)) d = true) /\
  SFltb d (Binary32.of_int (-19 + 1)) = true.
Proof.
  apply (setMagneticDeclination_adds_minutes (-19) 43); lia.
Defined.

(** Far outside the range of a compass the sum rounds the minutes away. *)
Example setMagneticDeclination_large_degrees :
  Binary32.setMagneticDeclination 4194304 59 = Binary32.of_int 4194305.
Proof. vm_compute. reflexivity. Qed.

(** ** The direct calibration setters *)

(** Offsets and scales are stored independently: the two setters commute,
    each accessor reads back what was set at indices 0, 1 and 2, and neither
    setter touches anything else the accessors of the other return. *)
Theorem calibration_setters_round_trip (ox oy oz sx sy sz : cfloat)
  (c : compass) :
  let c' := setCalibrationScales sx sy sz (setCalibrationOffsets ox oy oz c) in
  c' = setCalibrationOffsets ox oy oz (setCalibrationScales sx sy sz c) /\
  getCalibrationOffset 0 c' = Ok ox /\
  getCalibrationOffset 1 c' = Ok oy /\
  getCalibrationOffset 2 c' = Ok oz /\
  getCalibrationScale 0 c' = Ok sx /\
  getCalibrationScale 1 c' = Ok sy /\
  getCalibrationScale 2 c' = Ok sz /\
  same_samples c c' /\ same_smoothing c c' /\ same_extrema c c' /\
  keeps_settings c c'.
Proof. destruct c; repeat split. Qed.

(** ** The maximum and minimum scans *)

Lemma scan_max_fold (h : list (vec3 Z)) (i : axis) (l : list Z) :
  forall m : Z,
    let r := fold_left
               (fun max j => if cell h j i >? cell h max i then j else max)
               l m in
    cell h m i <= cell h r i /\
    forall k, In k l -> cell h k i <= cell h r i.
Proof.
  induction l as [| j l IH]; intro m; cbv zeta.
  - cbn [fold_left]. split; [lia | intros k []].
  - cbn [fold_left].
    destruct (IH (if cell h j i >? cell h m i then j else m)) as [A B].
    cbv zeta in A, B.
    assert (Hm : cell h m i <= cell h (if cell h j i >? cell h m i then j else m) i
                 /\ cell h j i <= cell h (if cell h j i >? cell h m i then j else m) i).
    { destruct (cell h j i >? cell h m i) eqn:G.
      - rewrite Z.gtb_ltb in G. apply Z.ltb_lt in G. lia.
      - rewrite Z.gtb_ltb in G. apply Z.ltb_ge in G. lia. }
    split; [lia |].
    intros k [-> | Hk]; [lia | apply B; exact Hk].
Qed.

Lemma scan_min_fold (h : list (vec3 Z)) (i : axis) (l : list Z) :
  forall m : Z,
    let r := fold_left
               (fun min j => if cell h j i <? cell h min i then j else min)
               l m in
    cell h r i <= cell h m i /\
    forall k, In k l -> cell h r i <= cell h k i.
Proof.
  induction l as [| j l IH]; intro m; cbv zeta.
  - cbn [fold_left]. split; [lia | intros k []].
  - cbn [fold_left].
    destruct (IH (if cell h j i <? cell h m i then j else m)) as [A B].
    cbv zeta in A, B.
    assert (Hm : cell h (if cell h j i <? cell h m i then j else m) i <= cell h m i
                 /\ cell h (if cell h j i <? cell h m i then j else m) i <= cell h j i).
    { destruct (cell h j i <? cell h m i) eqn:G.
      - apply Z.ltb_lt in G. lia.
      - apply Z.ltb_ge in G. lia. }
    split; [lia |].
    intros k [-> | Hk]; [lia | apply B; exact Hk].
Qed.

(** The two scans of the advanced mode select a row holding the largest and
    a row holding the smallest entry among the rows 0 to [n - 1] they visit;
    neither ever selects row [n] or a later one. *)
Theorem scans_select_extremes (h : list (vec3 Z)) (i : axis) (n k : Z) :
  0 <= k < n ->
  cell h k i <= cell h (scan_max h i n) i /\
  cell h (scan_min h i n) i <= cell h k i /\
  0 <= scan_max h i n < n /\ 0 <= scan_min h i n < n.
Proof.
  intro Hk.
  assert (Hin : In k (map Z.of_nat (seq 0 (Z.to_nat n)))).
  { apply in_map_iff. exists (Z.to_nat k). split; [lia |].
    apply in_seq. lia. }
  pose proof (scan_max_bound h i n) as Bmax.
  pose proof (scan_min_bound h i n) as Bmin.
  split; [| split].
  - unfold scan_max.
    destruct (scan_max_fold h i (map Z.of_nat (seq 0 (Z.to_nat n))) 0) as [_ B].
    apply B. exact Hin.
  - unfold scan_min.
    destruct (scan_min_fold h i (map Z.of_nat (seq 0 (Z.to_nat n))) 0) as [_ B].
    apply B. exact Hin.
  - lia.
Qed.

Lemma scans_select_extremes_witness :
  (0 <= 2 < 4) /\
  cell [same3 10; same3 20; same3 30; same3 40; same3 50] 2 Ax0
    <= cell [same3 10; same3 20; same3 30; same3 40; same3 50]
         (scan_max [same3 10; same3 20; same3 30; same3 40; same3 50] Ax0 4)
         Ax0 /\
  cell [same3 10; same3 20; same3 30; same3 40; same3 50]
    (scan_min [same3 10; same3 20; same3 30; same3 40; same3 50] Ax0 4) Ax0
    <= cell [same3 10; same3 20; same3 30; same3 40; same3 50] 2 Ax0 /\
  0 <= scan_max [same3 10; same3 20; same3 30; same3 40; same3 50] Ax0 4 < 4 /\
  0 <= scan_min [same3 10; same3 20; same3 30; same3 40; same3 50] Ax0 4 < 4.
Proof.
  split; [lia |].
  apply (scans_select_extremes
           [same3 10; same3 20; same3 30; same3 40; same3 50] Ax0 4 2).
  lia.
Defined.
